(** * BVAC: armour point allocation and what [run_calculation] does with it

    A shallow embedding of [BVAC_v1.4.py]: the allocator
    [calculate_armour_distribution] with its two rounding helpers, the
    armour table with the labels and the lookup built from it, the
    arithmetic of [run_calculation] (the total from the tonnage, the weight
    of each facing, the exception its handler catches) and the canvas calls
    of [draw_diagram].  [BVAC_v1.3.py] has the same code except for
    [draw_diagram], which it lacks.

    Python [int] is [Z]; Python [float] is IEEE 754 binary64, modelled with
    the Standard Library's [spec_float] at precision 53 and [emax = 1024];
    a [dict] is an association list in insertion order, since the code
    iterates over its dictionaries; a raised exception is [None] in the
    allocator, and a value of [exn] where the caller tells exceptions
    apart. *)

From Stdlib Require Import ZArith QArith Qround Qabs List String Ascii Bool Lia Lqa.
From Stdlib Require Import DecimalString.
From Stdlib Require Import Floats.SpecFloat.
Import ListNotations.
Local Open Scope string_scope.
Local Open Scope Z_scope.

(** ** Python floats *)

Module PyFloat.

Definition prec : Z := 53.
Definition emax : Z := 1024.

Definition float := spec_float.

Definition fmul : float -> float -> float := SFmul prec emax.
Definition fdiv : float -> float -> float := SFdiv prec emax.
Definition fadd : float -> float -> float := SFadd prec emax.

(** [float(n)] for an [int] [n]: the nearest double, ties to even;
    [OverflowError] when that is out of range. *)
Definition of_int (n : Z) : option float :=
  match binary_normalize prec emax n 0 false with
  | S754_infinity _ => None
  | S754_nan => None
  | f => Some f
  end.

(** The rational a finite float stands for. *)
Definition F2Q (f : float) : Q :=
  match f with
  | S754_finite s m e =>
      let n := if s then Z.neg m else Z.pos m in
      if 0 <=? e then inject_Z (n * 2 ^ e) else n # (Z.to_pos (2 ^ (- e)))
  | _ => 0%Q
  end.

(** Round half to even on a quotient [n / d] with [d > 0]. *)
Definition round_half_even_div (n d : Z) : Z :=
  let q := n / d in
  let r := n mod d in
  match 2 * r ?= d with
  | Lt => q
  | Gt => q + 1
  | Eq => if Z.even q then q else q + 1
  end.

(** [round(x)] with one argument: the nearest [int], ties to even;
    [OverflowError] on an infinity, [ValueError] on a NaN. *)
Definition py_round (f : float) : option Z :=
  match f with
  | S754_zero _ => Some 0
  | S754_finite s m e =>
      let n := if s then Z.neg m else Z.pos m in
      Some (if 0 <=? e then n * 2 ^ e else round_half_even_div n (2 ^ (- e)))
  | _ => None
  end.

(** [math.ceil(x)]. *)
Definition py_ceil (f : float) : option Z :=
  match f with
  | S754_zero _ => Some 0
  | S754_finite s m e =>
      let n := if s then Z.neg m else Z.pos m in
      Some (if 0 <=? e then n * 2 ^ e else - ((- n) / 2 ^ (- e)))
  | _ => None
  end.

(** The double nearest to the decimal literal [n / d]: what Python's
    parser yields for a literal such as [0.208]. *)
Definition literal (n d : Z) : float :=
  fdiv (binary_normalize prec emax n 0 false)
       (binary_normalize prec emax d 0 false).

End PyFloat.

Import PyFloat.

(** ** Exceptions and dictionaries *)

Definition bind {A B : Type} (x : option A) (k : A -> option B) : option B :=
  match x with
  | Some a => k a
  | None => None
  end.

Notation "x <- c1 ;; c2" := (bind c1 (fun x => c2))
  (at level 61, c1 at next level, right associativity).

Fixpoint mapM {A B : Type} (f : A -> option B) (l : list A) : option (list B) :=
  match l with
  | [] => Some []
  | a :: l' => b <- f a ;; bs <- mapM f l' ;; Some (b :: bs)
  end.

Module Dict.

(** A [dict] with [str] keys, in insertion order. *)
Definition dict (V : Type) := list (string * V).

Definition keys {V} (d : dict V) : list string := map fst d.
Definition values {V} (d : dict V) : list V := map snd d.

Fixpoint get {V} (k : string) (d : dict V) : option V :=
  match d with
  | [] => None
  | (k', v) :: d' => if String.eqb k k' then Some v else get k d'
  end.

Definition mem {V} (k : string) (d : dict V) : bool :=
  match get k d with
  | Some _ => true
  | None => false
  end.

(** [d[k] = v]: an existing key keeps its place, a new one goes last. *)
Fixpoint set {V} (k : string) (v : V) (d : dict V) : dict V :=
  match d with
  | [] => [(k, v)]
  | (k', v') :: d' =>
      if String.eqb k k' then (k', v) :: d' else (k', v') :: set k v d'
  end.

Fixpoint remove {V} (k : string) (d : dict V) : dict V :=
  match d with
  | [] => []
  | (k', v') :: d' => if String.eqb k k' then d' else (k', v') :: remove k d'
  end.

(** [d.pop(k)]: [KeyError] when [k] is absent. *)
Definition pop {V} (k : string) (d : dict V) : option (V * dict V) :=
  v <- get k d ;; Some (v, remove k d).

(** [{k: f(v) for k, v in d.items()}]. *)
Definition map_values {V W} (f : V -> option W) (d : dict V) : option (dict W) :=
  mapM (fun kv => w <- f (snd kv) ;; Some (fst kv, w)) d.

(** [{k: f(k, v) for k, v in d.items()}]. *)
Definition map_items {V W} (f : string -> V -> option W) (d : dict V)
  : option (dict W) :=
  mapM (fun kv => w <- f (fst kv) (snd kv) ;; Some (fst kv, w)) d.

End Dict.

Import Dict.

Definition sum (l : list Z) : Z := fold_left Z.add l 0.

(** ** The allocator *)

(** [n * x] with [n] an [int] and [x] a [float]. *)
Definition int_mul_float (n : Z) (x : float) : option float :=
  f <- of_int n ;; Some (fmul f x).

(** [x / n] with [x] a [float] and [n] an [int]. *)
Definition float_div_int (x : float) (n : Z) : option float :=
  if n =? 0 then None else f <- of_int n ;; Some (fdiv x f).

Definition round_to_nearest_5 (n : float) : option Z :=
  q <- float_div_int n 5 ;; r <- py_round q ;; Some (5 * r).

Definition round_up_to_5 (n : float) : option Z :=
  q <- float_div_int n 5 ;; r <- py_ceil q ;; Some (5 * r).

Definition base_distribution : dict float :=
  [ ("Front", literal 30 100);
    ("Left Side", literal 208 1000);
    ("Right Side", literal 208 1000);
    ("Rear", literal 117 1000);
    ("Turret", literal 167 1000) ].

(** [for loc in distribution_percent:
       distribution_percent[loc] += turret_share / len(distribution_percent)] *)
Fixpoint redistribute (turret_share : float) (locs : list string)
    (dp : dict float) : option (dict float) :=
  match locs with
  | [] => Some dp
  | loc :: locs' =>
      old <- get loc dp ;;
      inc <- float_div_int turret_share (Z.of_nat (List.length dp)) ;;
      redistribute turret_share locs' (set loc (fadd old inc) dp)
  end.

Definition distribution_percent (remove_turret : bool) : option (dict float) :=
  if remove_turret then
    p <- pop "Turret" base_distribution ;;
    redistribute (fst p) (keys (snd p)) (snd p)
  else Some base_distribution.

Definition raw_allocations (total_armour_points : Z) (dp : dict float)
  : option (dict float) :=
  map_values (int_mul_float total_armour_points) dp.

(** The loop that hands out the leftover, one point per facing, with its
    [break]. *)
Fixpoint distribute_leftover (locs : list string) (ad : dict Z) (leftover : Z)
  : option (dict Z) :=
  match locs with
  | [] => Some ad
  | loc :: locs' =>
      if leftover =? 0 then Some ad
      else
        v <- get loc ad ;;
        distribute_leftover locs' (set loc (v + 1) ad) (leftover - 1)
  end.

(** [{loc: round(points) ...}] of the default branch. *)
Definition basic_rounding (raw : dict float) : option (dict Z) :=
  map_values py_round raw.

(** The rounding loop of the [round_each] branch. *)
Definition rounded_allocations (raw : dict float) : option (dict Z) :=
  map_items (fun loc points =>
               if String.eqb loc "Front" then round_up_to_5 points
               else round_to_nearest_5 points) raw.

(** The adjustment of the [round_each] branch after the rounding. *)
Definition reconcile (total_armour_points : Z) (ra : dict Z) : option (dict Z) :=
  let total_rounded := sum (values ra) in
  if total_rounded >? total_armour_points then
    let overage := total_rounded - total_armour_points in
    if mem "Rear" ra
       && (match get "Rear" ra with Some r => r >=? overage | None => false end)
    then
      r <- get "Rear" ra ;; Some (set "Rear" (r - overage) ra)
    else
      let deficit :=
        overage - (match get "Rear" ra with Some r => r | None => 0 end) in
      let ra1 := set "Rear" 0 ra in
      if mem "Turret" ra1 then
        t <- get "Turret" ra1 ;; Some (set "Turret" (Z.max 0 (t - deficit)) ra1)
      else Some ra1
  else if total_rounded <? total_armour_points then
    f <- get "Front" ra ;;
    Some (set "Front" (f + (total_armour_points - total_rounded)) ra)
  else Some ra.

Definition calculate_armour_distribution (total_armour_points : Z)
    (round_each remove_turret : bool) : option (dict Z) :=
  dp <- distribution_percent remove_turret ;;
  raw <- raw_allocations total_armour_points dp ;;
  if negb round_each then
    ad <- basic_rounding raw ;;
    let allocated := sum (values ad) in
    let leftover := total_armour_points - allocated in
    if leftover >? 0 then distribute_leftover (keys dp) ad leftover
    else Some ad
  else
    ra <- rounded_allocations raw ;;
    reconcile total_armour_points ra.

(** ** Vocabulary of the statements *)

(** The facings that survive, in the order of the share table. *)
Definition facings (remove_turret : bool) : list string :=
  if remove_turret then ["Front"; "Left Side"; "Right Side"; "Rear"]
  else ["Front"; "Left Side"; "Right Side"; "Rear"; "Turret"].

(** The per-facing roundings of the default branch, before the leftover
    is handed out. *)
Definition default_rounding (total_armour_points : Z) (remove_turret : bool)
  : option (dict Z) :=
  dp <- distribution_percent remove_turret ;;
  raw <- raw_allocations total_armour_points dp ;;
  basic_rounding raw.

(** The per-facing roundings of the [round_each] branch, before the total
    is reconciled. *)
Definition coarse_rounding (total_armour_points : Z) (remove_turret : bool)
  : option (dict Z) :=
  dp <- distribution_percent remove_turret ;;
  raw <- raw_allocations total_armour_points dp ;;
  rounded_allocations raw.

(** The raw (unrounded) allocations. *)
Definition raw_shares (total_armour_points : Z) (remove_turret : bool)
  : option (dict float) :=
  dp <- distribution_percent remove_turret ;;
  raw_allocations total_armour_points dp.

(** [x] is a normal double strictly closer than half a unit in the last
    place to the rational [q]: the double that the literal [q] denotes. *)
Definition nearest_double (x : float) (q : Q) : Prop :=
  match x with
  | S754_finite _ m e =>
      Z.pos (digits2_pos m) = prec /\
      (Qabs (F2Q x - q) < 1 # Z.to_pos (2 ^ (1 - e)))%Q
  | _ => False
  end.

(** Python's [sum] over floats, left to right from [0]. *)
Definition fsum (l : list float) : float :=
  fold_left fadd l (S754_zero false).

Definition Qsum (l : list Q) : Q := fold_left Qplus l 0%Q.

(** Largest magnitude an [int] may have and still convert to a [float]. *)
Definition int_float_bound : Z := 2 ^ 1024 - 2 ^ 970.

(** *** Vocabulary of the floating-point lemmas *)

(** [N / D] lies at [m] ([loc_Exact]) or strictly between [m] and [m + 1],
    on the side of the midpoint that the location tells. *)
Definition inbetween (N D m : Z) (l : location) : Prop :=
  match l with
  | loc_Exact => N = m * D
  | loc_Inexact c => m * D < N < (m + 1) * D /\ (2 * N ?= (2 * m + 1) * D) = c
  end.

(** The least integer [c] with [n <= c * d]. *)
Definition ceil_div (n d : Z) : Z := - ((- n) / d).

(** [float(5)]. *)
Definition five : float := S754_finite false 5629499534213120 (-50).

(** A normal double of sign [s] whose exponent lies in [lo .. hi]. *)
Definition normal (s : bool) (lo hi : Z) (f : float) : Prop :=
  exists m e,
    f = S754_finite s m e /\ 2 ^ 52 <= Z.pos m < 2 ^ 53 /\ lo <= e <= hi.

(** ** The caller: [run_calculation], the armour table, [draw_diagram] *)

(** The exceptions that the arithmetic of [run_calculation] can raise. *)
Inductive exn : Set := ValueError | OverflowError | ZeroDivisionError.

(** [int(x)] for a [float]: truncation toward zero; [ValueError] on a NaN,
    [OverflowError] on an infinity. *)
Definition py_int (x : float) : exn + Z :=
  match x with
  | S754_zero _ => inr 0
  | S754_finite s m e =>
      let n := if s then Z.neg m else Z.pos m in
      inr (if 0 <=? e then n * 2 ^ e else Z.quot n (2 ^ (- e)))
  | S754_infinity _ => inl OverflowError
  | S754_nan => inl ValueError
  end.

Definition RAW_ARMOUR_TYPES : dict float :=
  [ ("Standard", literal 160 10);
    ("Ferro-Fibrous", literal 1792 100);
    ("Light Ferro-Fibrous", literal 1696 100);
    ("Heavy Ferro-Fibrous", literal 1984 100);
    ("Hardened", literal 80 10);
    ("Ballistic Reinforced", literal 120 10);
    ("Clan Ferro-Fibrous", literal 1920 100);
    ("Clan Ferro-Lamellor", literal 140 10) ].

(** [int(tons * points_per_ton)] of [run_calculation]. *)
Definition total_armour_points (tons points_per_ton : float) : exn + Z :=
  py_int (fmul tons points_per_ton).

(** The handler of [run_calculation]: [except ValueError]. *)
Definition handled (e : exn) : bool :=
  match e with
  | ValueError => true
  | _ => false
  end.

(** [n / x] with [n] an [int] and [x] a [float]: the [int] is converted
    first, then a zero divisor raises [ZeroDivisionError]. *)
Definition int_div_float (n : Z) (x : float) : exn + float :=
  match of_int n with
  | None => inl OverflowError
  | Some f =>
      match x with
      | S754_zero _ => inl ZeroDivisionError
      | _ => inr (fdiv f x)
      end
  end.

(** [weight = pts / points_per_ton] for every item of the layout, in
    order; the first exception ends the loop. *)
Fixpoint weights (layout : dict Z) (points_per_ton : float)
  : exn + list (string * float) :=
  match layout with
  | [] => inr []
  | (loc, pts) :: rest =>
      match int_div_float pts points_per_ton with
      | inl e => inl e
      | inr weight =>
          match weights rest points_per_ton with
          | inl e => inl e
          | inr ws => inr ((loc, weight) :: ws)
          end
      end
  end.

(** [dict(pairs)]: a later pair with the same key replaces the value. *)
Definition dict_of_pairs {V} (l : list (string * V)) : dict V :=
  fold_left (fun d kv => set (fst kv) (snd kv) d) l [].

Section ArmourOptions.

(** The text of [f"{value:.2f}"]. *)
Variable format_2f : float -> string.

Definition ARMOUR_OPTIONS : list string :=
  map (fun nv => fst nv ++ " (" ++ format_2f (snd nv) ++ " pts/ton)")
      RAW_ARMOUR_TYPES.

Definition ARMOUR_LOOKUP : dict float :=
  dict_of_pairs (combine ARMOUR_OPTIONS (values RAW_ARMOUR_TYPES)).

End ArmourOptions.

(** [str(n)] for an [int]. *)
Definition str (n : Z) : string := NilZero.string_of_int (Z.to_int n).

Definition newline : string := String "010"%char EmptyString.

(** [d.get(k, default)]. *)
Definition get_or {V} (k : string) (default : V) (d : dict V) : V :=
  match get k d with
  | Some v => v
  | None => default
  end.

(** The calls [draw_diagram] makes on the canvas. *)
Inductive canvas_call : Type :=
| delete (tag : string)
| create_rectangle (x1 y1 x2 y2 : Z) (fill : string)
| create_text (x y : Z) (text : string) (font : string * Z) (fill : string).

Definition draw_diagram (layout : dict Z) : list canvas_call :=
  [ delete "all";
    create_rectangle 80 20 120 60 "gray20";
    create_text 100 40 ("Fr" ++ newline ++ str (get_or "Front" 0 layout))
                ("Arial", 8) "white";
    create_rectangle 40 60 80 100 "gray20";
    create_text 60 80 ("Ls" ++ newline ++ str (get_or "Left Side" 0 layout))
                ("Arial", 8) "white";
    create_rectangle 120 60 160 100 "gray20";
    create_text 140 80 ("Rs" ++ newline ++ str (get_or "Right Side" 0 layout))
                ("Arial", 8) "white";
    create_rectangle 80 100 120 140 "gray20";
    create_text 100 120 ("Rr" ++ newline ++ str (get_or "Rear" 0 layout))
                ("Arial", 8) "white" ]
  ++ (if mem "Turret" layout then
        [ create_rectangle 80 60 120 100 "gray40";
          create_text 100 80 ("Tu" ++ newline ++ str (get_or "Turret" 0 layout))
                      ("Arial", 8) "white" ]
      else []).

(** The texts on the canvas, in the order drawn. *)
Definition texts (calls : list canvas_call) : list string :=
  flat_map (fun c => match c with
                     | create_text _ _ t _ _ => [t]
                     | _ => []
                     end) calls.

(** The method a canvas call invokes. *)
Inductive canvas_method : Set := Delete | CreateRectangle | CreateText.

Definition method (c : canvas_call) : canvas_method :=
  match c with
  | delete _ => Delete
  | create_rectangle _ _ _ _ _ => CreateRectangle
  | create_text _ _ _ _ _ => CreateText
  end.

(** The rectangles on the canvas, in the order drawn. *)
Definition rectangles (calls : list canvas_call) : list canvas_call :=
  filter (fun c => match c with
                   | create_rectangle _ _ _ _ _ => true
                   | _ => false
                   end) calls.

(** The label of a facing on the diagram. *)
Definition diagram_label (kv : string * Z) : string :=
  (match fst kv with
   | "Front" => "Fr"
   | "Left Side" => "Ls"
   | "Right Side" => "Rs"
   | "Rear" => "Rr"
   | _ => "Tu"
   end) ++ newline ++ str (snd kv).

(** The facings of a layout in the rank of their shares: Front, the two
    sides, the Turret if there is one, the Rear. *)
Definition ranked (d : dict Z) : Prop :=
  exists f l r b,
    get "Front" d = Some f /\ get "Left Side" d = Some l /\
    get "Right Side" d = Some r /\ get "Rear" d = Some b /\
    r <= l <= f /\ 0 <= b <= r /\
    (forall t, get "Turret" d = Some t -> b <= t <= r).

Arguments fmul : simpl never.
Arguments fdiv : simpl never.
Arguments fadd : simpl never.
Arguments of_int : simpl never.
Arguments py_round : simpl never.
Arguments py_ceil : simpl never.

(** ** Binary64 arithmetic *)

Lemma digits2_pos_size (p : positive) : digits2_pos p = Pos.size p.
Proof. induction p; simpl; congruence. Qed.

Lemma Zdigits2_log2 (m : Z) : 0 < m -> Zdigits2 m = Z.log2 m + 1.
Proof.
  destruct m as [|p|p]; try lia. intros _. simpl.
  rewrite digits2_pos_size. destruct p; simpl; try reflexivity;
    rewrite Pos2Z.inj_succ; lia.
Qed.

Lemma Zdigits2_bounds (m d : Z) :
  0 < m -> Zdigits2 m = d -> 2 ^ (d - 1) <= m < 2 ^ d.
Proof.
  intros Hm <-. rewrite Zdigits2_log2 by exact Hm.
  replace (Z.log2 m + 1 - 1) with (Z.log2 m) by lia.
  pose proof (Z.log2_spec m Hm). unfold Z.succ in *. lia.
Qed.

Lemma Zdigits2_unique (m d : Z) :
  0 < d -> 2 ^ (d - 1) <= m < 2 ^ d -> Zdigits2 m = d.
Proof.
  intros Hd H. assert (0 < m) by (pose proof (Z.pow_pos_nonneg 2 (d - 1)); lia).
  rewrite Zdigits2_log2 by assumption.
  rewrite (Z.log2_unique m (d - 1)); [lia | lia |].
  unfold Z.succ. replace (d - 1 + 1) with d by lia. exact H.
Qed.

Lemma iter_pos_nat {A} (f : A -> A) (p : positive) (x : A) :
  iter_pos f p x = Nat.iter (Pos.to_nat p) f x.
Proof.
  revert x. induction p as [p IH|p IH|]; intros x; cbn [iter_pos].
  - rewrite !IH, Pos2Nat.inj_xI.
    replace (S (2 * Pos.to_nat p))%nat
      with (Pos.to_nat p + S (Pos.to_nat p))%nat by lia.
    rewrite Nat.iter_add, Nat.iter_succ_r. reflexivity.
  - rewrite !IH, Pos2Nat.inj_xO.
    replace (2 * Pos.to_nat p)%nat with (Pos.to_nat p + Pos.to_nat p)%nat by lia.
    now rewrite Nat.iter_add.
  - reflexivity.
Qed.

Lemma loc_of_shr_record_of_loc (m : Z) (l : location) :
  loc_of_shr_record (shr_record_of_loc m l) = l.
Proof. destruct l as [|[]]; reflexivity. Qed.

Lemma shr_m_shr_record_of_loc (m : Z) (l : location) :
  shr_m (shr_record_of_loc m l) = m.
Proof. destruct l as [|[]]; reflexivity. Qed.

Ltac cmp_hyps :=
  repeat match goal with
         | H : _ /\ _ |- _ => destruct H
         | H : (_ ?= _) = Lt |- _ => apply Z.compare_lt_iff in H
         | H : (_ ?= _) = Gt |- _ => apply Z.compare_gt_iff in H
         | H : (_ ?= _) = Eq |- _ => apply Z.compare_eq_iff in H
         end.

Ltac cmp_goal :=
  match goal with
  | |- (_ ?= _) = Lt => apply Z.compare_lt_iff
  | |- (_ ?= _) = Gt => apply Z.compare_gt_iff
  | |- (_ ?= _) = Eq => apply Z.compare_eq_iff
  end.

Lemma shr_1_step (N D : Z) (mrs : shr_record) :
  0 < D -> 0 <= shr_m mrs ->
  inbetween N D (shr_m mrs) (loc_of_shr_record mrs) ->
  inbetween N (2 * D) (shr_m (shr_1 mrs)) (loc_of_shr_record (shr_1 mrs)) /\
  shr_m (shr_1 mrs) = shr_m mrs / 2.
Proof.
  intros HD Hm H. destruct mrs as [m r s]. cbn [shr_m] in Hm.
  assert (E : forall p, Z.pos p~1 / 2 = Z.pos p /\ Z.pos p~0 / 2 = Z.pos p).
  { intros p. split; symmetry.
    - apply (Z.div_unique _ 2 _ 1); lia.
    - apply (Z.div_unique _ 2 _ 0); lia. }
  destruct m as [|[p|p|]|p]; [| | | |lia];
    try destruct (E p) as [E1 E0];
    destruct r, s;
    cbn [shr_1 shr_m loc_of_shr_record orb inbetween] in *;
    (split; [|first [reflexivity | now rewrite E1 | now rewrite E0]]);
    try rewrite Pos2Z.inj_xI in H; try rewrite Pos2Z.inj_xO in H;
    cmp_hyps; try nia; (split; [nia | cmp_goal; nia]).
Qed.

Lemma shr_iter (n : nat) (N D : Z) (mrs : shr_record) :
  0 < D -> 0 <= shr_m mrs ->
  inbetween N D (shr_m mrs) (loc_of_shr_record mrs) ->
  inbetween N (D * 2 ^ Z.of_nat n) (shr_m (Nat.iter n shr_1 mrs))
            (loc_of_shr_record (Nat.iter n shr_1 mrs)) /\
  shr_m (Nat.iter n shr_1 mrs) = shr_m mrs / 2 ^ Z.of_nat n.
Proof.
  intros HD Hm H. induction n as [|n [IH1 IH2]].
  - simpl. rewrite Z.mul_1_r, Z.div_1_r. auto.
  - rewrite Nat.iter_succ, Nat2Z.inj_succ, Z.pow_succ_r by lia.
    assert (Hpow : 0 < 2 ^ Z.of_nat n) by (apply Z.pow_pos_nonneg; lia).
    destruct (shr_1_step N (D * 2 ^ Z.of_nat n) (Nat.iter n shr_1 mrs))
      as [S1 S2].
    + nia.
    + rewrite IH2. apply Z.div_pos; lia.
    + exact IH1.
    + split.
      * replace (D * (2 * 2 ^ Z.of_nat n)) with (2 * (D * 2 ^ Z.of_nat n))
          by lia. exact S1.
      * rewrite S2, IH2, Z.div_div by lia. f_equal. lia.
Qed.

Lemma round_nearest_even_div (N D m : Z) (l : location) :
  0 < D -> inbetween N D m l ->
  round_nearest_even m l = round_half_even_div N D.
Proof.
  intros HD H. unfold round_half_even_div.
  assert (Hq : N / D = m /\ N mod D = N - m * D).
  { assert (Hb : m * D <= N < (m + 1) * D).
    { destruct l; cbn [inbetween] in H; lia. }
    assert (N / D = m) by (symmetry; apply (Z.div_unique _ _ _ (N - m * D)); lia).
    split; [assumption|]. rewrite Z.mod_eq by lia. nia. }
  destruct Hq as [-> ->].
  destruct l as [|c]; cbn [inbetween round_nearest_even] in *.
  - subst N. replace (2 * (m * D - m * D)) with 0 by lia.
    now destruct D.
  - destruct H as [Hb Hc].
    replace (2 * (N - m * D) ?= D) with (2 * N ?= (2 * m + 1) * D).
    + rewrite Hc. now destruct c.
    + destruct (Z.compare_spec (2 * N) ((2 * m + 1) * D));
        symmetry; cmp_goal; lia.
Qed.

Lemma round_half_even_div_bounds (N D : Z) :
  0 < D ->
  N / D <= round_half_even_div N D <= N / D + 1.
Proof.
  intros HD. unfold round_half_even_div.
  destruct (2 * (N mod D) ?= D); [destruct (Z.even (N / D))| |]; lia.
Qed.

(** [fexp] in the normal range. *)
Lemma fexp_normal (x : Z) : -1021 <= x -> fexp prec emax x = x - 53.
Proof. unfold fexp, SpecFloat.emin, prec, emax. lia. Qed.

Lemma shr_fexp_normal (m e p : Z) (l : location) :
  0 < m -> Zdigits2 m = 53 + p -> 0 <= p -> -1074 <= e + p ->
  shr_fexp prec emax m e l =
    (Nat.iter (Z.to_nat p) shr_1 (shr_record_of_loc m l), e + p).
Proof.
  intros Hm Hd Hp He. unfold shr_fexp. rewrite Hd.
  rewrite fexp_normal by lia.
  replace (53 + p + e - 53 - e) with p by lia.
  unfold shr. destruct p as [|q|q]; [| |lia].
  - simpl. f_equal. lia.
  - rewrite iter_pos_nat. reflexivity.
Qed.

Lemma inbetween_div (N D m : Z) (l : location) :
  0 < D -> inbetween N D m l -> N / D = m.
Proof.
  intros HD H. assert (Hb : m * D <= N < (m + 1) * D).
  { destruct l; cbn [inbetween] in H; lia. }
  symmetry. apply (Z.div_unique _ _ _ (N - m * D)); lia.
Qed.

Lemma binary_round_aux_normal (s : bool) (m e p N D : Z) (l : location) :
  0 < D -> 0 < m -> inbetween N D m l ->
  Zdigits2 m = 53 + p -> 0 <= p -> -1074 <= e + p ->
  2 ^ 52 <= round_half_even_div N (D * 2 ^ p) <= 2 ^ 53 /\
  binary_round_aux prec emax s m e l =
    if round_half_even_div N (D * 2 ^ p) <? 2 ^ 53 then
      if e + p <=? 971
      then S754_finite s (Z.to_pos (round_half_even_div N (D * 2 ^ p))) (e + p)
      else S754_infinity s
    else
      if e + p + 1 <=? 971
      then S754_finite s (Z.to_pos (2 ^ 52)) (e + p + 1)
      else S754_infinity s.
Proof.
  intros HD Hm Hin Hd Hp He.
  assert (Hpow : 0 < 2 ^ p) by (apply Z.pow_pos_nonneg; lia).
  destruct (shr_iter (Z.to_nat p) N D (shr_record_of_loc m l)) as [I1 I2];
    rewrite ?shr_m_shr_record_of_loc, ?loc_of_shr_record_of_loc;
    [lia | lia | exact Hin |].
  rewrite Z2Nat.id in I1, I2 by lia.
  rewrite shr_m_shr_record_of_loc in I2.
  unfold binary_round_aux.
  rewrite (shr_fexp_normal m e p l Hm Hd Hp He).
  assert (HD' : 0 < D * 2 ^ p) by nia.
  rewrite (round_nearest_even_div N (D * 2 ^ p) _ _ HD' I1).
  pose proof (round_half_even_div_bounds N (D * 2 ^ p) HD') as Hb.
  rewrite (inbetween_div _ _ _ _ HD' I1), I2 in Hb.
  set (m1 := round_half_even_div N (D * 2 ^ p)) in *.
  assert (Hm0 : 2 ^ 52 <= m / 2 ^ p < 2 ^ 53).
  { apply Zdigits2_bounds in Hd; [|exact Hm].
    replace (53 + p - 1) with (52 + p) in Hd by lia.
    rewrite !Z.pow_add_r in Hd by lia. split.
    - apply Z.div_le_lower_bound; lia.
    - apply Z.div_lt_upper_bound; lia. }
  split; [lia|].
  destruct (Z.ltb_spec m1 (2 ^ 53)) as [Hlt|Hge].
  - rewrite (shr_fexp_normal m1 (e + p) 0 loc_Exact); try lia.
    + cbn [Z.to_nat Nat.iter nat_rect shr_record_of_loc shr_m].
      rewrite Z.add_0_r.
      destruct m1 as [|q|q]; try lia. reflexivity.
    + apply Zdigits2_unique; lia.
  - assert (E : m1 = 2 ^ 53) by lia. rewrite E.
    rewrite (shr_fexp_normal (2 ^ 53) (e + p) 1 loc_Exact); try lia.
    + reflexivity.
    + reflexivity.
Qed.

(** Facts on [round_half_even_div]. *)
Lemma round_half_even_div_spec (N D : Z) :
  0 < D ->
  (2 * round_half_even_div N D - 1) * D <= 2 * N
    <= (2 * round_half_even_div N D + 1) * D /\
  (2 * N = (2 * round_half_even_div N D + 1) * D ->
   Z.even (round_half_even_div N D) = true) /\
  (2 * N = (2 * round_half_even_div N D - 1) * D ->
   Z.even (round_half_even_div N D) = true).
Proof.
  intros HD. unfold round_half_even_div.
  assert (HD0 : D <> 0) by lia.
  pose proof (Z.div_mod N D HD0) as E.
  pose proof (Z.mod_pos_bound N D HD) as B.
  set (q := N / D) in *. set (r := N mod D) in *. clearbody q r.
  destruct (Z.compare_spec (2 * r) D) as [C|C|C]; cbv iota;
    [destruct (Z.even q) eqn:Ev|..]; repeat split; intros;
    try nia; try assumption;
    try (rewrite Z.even_add, Ev; reflexivity); exfalso; nia.
Qed.

Lemma round_half_even_div_unique (N D r : Z) :
  0 < D ->
  (2 * r - 1) * D <= 2 * N <= (2 * r + 1) * D ->
  (2 * N = (2 * r + 1) * D -> Z.even r = true) ->
  (2 * N = (2 * r - 1) * D -> Z.even r = true) ->
  round_half_even_div N D = r.
Proof.
  intros HD Hb Hu Hl.
  destruct (round_half_even_div_spec N D HD) as (Hb' & Hu' & Hl').
  set (r' := round_half_even_div N D) in *. clearbody r'.
  assert (r' = r - 1 \/ r' = r \/ r' = r + 1) as [E|[E|E]] by nia.
  - exfalso. subst r'. assert (E2 : 2 * N = (2 * r - 1) * D) by nia.
    pose proof (Hl E2) as A. replace (2 * (r - 1) + 1) with (2 * r - 1) in Hu' by lia.
    pose proof (Hu' E2) as B.
    replace r with (r - 1 + 1) in A by lia.
    rewrite Z.even_add, B in A. discriminate.
  - exact E.
  - exfalso. subst r'. assert (E2 : 2 * N = (2 * r + 1) * D) by nia.
    pose proof (Hu E2) as A. replace (2 * (r + 1) - 1) with (2 * r + 1) in Hl' by lia.
    pose proof (Hl' E2) as B. rewrite Z.even_add, A in B. discriminate.
Qed.

Lemma round_half_even_div_exact (m D : Z) :
  0 < D -> round_half_even_div (m * D) D = m.
Proof.
  intros HD. unfold round_half_even_div.
  rewrite Z.div_mul, Z.mod_mul by lia. simpl. now destruct D.
Qed.

Lemma round_half_even_div_1 (m : Z) : round_half_even_div m 1 = m.
Proof.
  rewrite <- (Z.mul_1_r m) at 1. apply round_half_even_div_exact. lia.
Qed.

Lemma round_half_even_div_lt (N D J : Z) :
  0 < D -> 2 * N < (2 * J - 1) * D -> round_half_even_div N D < J.
Proof.
  intros HD H. destruct (round_half_even_div_spec N D HD) as (Hb & _ & _).
  nia.
Qed.

Lemma round_half_even_div_nonneg (N D : Z) :
  0 < D -> 0 <= N -> 0 <= round_half_even_div N D.
Proof.
  intros HD HN. pose proof (round_half_even_div_bounds N D HD).
  pose proof (Z.div_pos N D HN HD). lia.
Qed.

Lemma iter_xO (m d : positive) :
  Z.pos (Pos.iter xO m d) = Z.pos m * 2 ^ Z.pos d.
Proof.
  induction d as [|d IH] using Pos.peano_ind.
  - simpl. lia.
  - rewrite Pos.iter_succ, Pos2Z.inj_xO, IH, Pos2Z.inj_succ, Z.pow_succ_r; lia.
Qed.

(** ** Conversion of an [int] *)

Lemma binary_round_int (s : bool) (mx : positive) :
  Z.pos mx < 2 ^ 1024 - 2 ^ 970 ->
  exists m e,
    binary_round prec emax s mx 0 = S754_finite s m e /\
    2 ^ 52 <= Z.pos m < 2 ^ 53 /\ -52 <= e <= 971 /\
    (Z.pos mx < 2 ^ 52 -> e <= -1) /\
    (Z.pos mx < 2 ^ 53 -> Z.pos m = Z.pos mx * 2 ^ (- e)).
Proof.
  intros Hb. unfold binary_round.
  set (d := Z.pos (digits2_pos mx)).
  assert (Hd : Zdigits2 (Z.pos mx) = d) by reflexivity.
  pose proof (Zdigits2_bounds _ _ (Pos2Z.is_pos mx) Hd) as Hdb.
  assert (Hd1 : 1 <= d) by (unfold d; lia).
  assert (Hd2 : d <= 1024).
  { destruct (Z_le_gt_dec d 1024) as [|Hgt]; [assumption|exfalso].
    assert (2 ^ 1024 <= 2 ^ (d - 1)) by (apply Z.pow_le_mono_r; lia). lia. }
  rewrite fexp_normal by lia. unfold shl_align.
  replace (d + 0 - 53 - 0) with (d - 53) by lia.
  assert (I : forall m, inbetween (Z.pos m) 1 (Z.pos m) loc_Exact)
    by (intros; simpl; lia).
  destruct (d - 53) as [|q|q] eqn:Eq.
  - (* exactly 53 digits *)
    assert (Hd' : Zdigits2 (Z.pos mx) = 53 + 0) by lia.
    destruct (binary_round_aux_normal s (Z.pos mx) 0 0 (Z.pos mx) 1 loc_Exact
                Z.lt_0_1 (Pos2Z.is_pos mx) (I mx) Hd' (Z.le_refl 0))
      as [B1 B2]; [lia|].
    rewrite B2. replace (1 * 2 ^ 0) with 1 in * by reflexivity.
    rewrite round_half_even_div_1.
    replace (d - 1) with 52 in Hdb by lia. replace d with 53 in Hdb by lia.
    destruct (Z.ltb_spec (Z.pos mx) (2 ^ 53)); [|lia].
    exists mx, 0. split; [reflexivity|]. repeat split; lia.
  - (* more than 53 digits: the low bits are rounded away *)
    assert (Hq : Z.pos q <= 971) by lia.
    assert (Hd' : Zdigits2 (Z.pos mx) = 53 + Z.pos q) by lia.
    destruct (binary_round_aux_normal s (Z.pos mx) 0 (Z.pos q) (Z.pos mx) 1
                loc_Exact Z.lt_0_1 (Pos2Z.is_pos mx) (I mx) Hd'
                (Pos2Z.is_nonneg q))
      as [B1 B2]; [lia|].
    rewrite B2. rewrite !Z.add_0_l.
    set (m1 := round_half_even_div (Z.pos mx) (1 * 2 ^ Z.pos q)) in *.
    assert (Hmx : 2 ^ 53 <= Z.pos mx).
    { assert (2 ^ 53 <= 2 ^ (d - 1)) by (apply Z.pow_le_mono_r; lia). lia. }
    destruct (Z.ltb_spec m1 (2 ^ 53)) as [Hlt|Hge].
    + destruct (Z.leb_spec (Z.pos q) 971); [|lia].
      exists (Z.to_pos m1), (Z.pos q). rewrite Z2Pos.id by lia.
      repeat split; lia.
    + destruct (Z.leb_spec (Z.pos q + 1) 971) as [|Hbig].
      * exists (Z.to_pos (2 ^ 52)), (Z.pos q + 1).
        repeat split; try lia; reflexivity.
      * exfalso. assert (Eq' : Z.pos q = 971) by lia.
        assert (m1 < 2 ^ 53); [|lia].
        apply round_half_even_div_lt.
        -- rewrite Eq'. reflexivity.
        -- rewrite Eq'. lia.
  - (* fewer than 53 digits: the mantissa is shifted left *)
    assert (Hdq : d = 53 - Z.pos q) by lia.
    assert (Hmz : 2 ^ 52 <= Z.pos (Pos.iter xO mx q) < 2 ^ 53).
    { rewrite iter_xO.
      replace 52 with (d - 1 + Z.pos q) by lia.
      replace 53 with (d + Z.pos q) by lia.
      rewrite !Z.pow_add_r by lia.
      assert (0 < 2 ^ Z.pos q) by (apply Z.pow_pos_nonneg; lia). nia. }
    assert (Hd' : Zdigits2 (Z.pos (Pos.iter xO mx q)) = 53 + 0)
      by (apply Zdigits2_unique; lia).
    destruct (binary_round_aux_normal s (Z.pos (Pos.iter xO mx q)) (d + 0 - 53) 0
                (Z.pos (Pos.iter xO mx q)) 1 loc_Exact
                Z.lt_0_1 (Pos2Z.is_pos _) (I _) Hd' (Z.le_refl 0))
      as [B1 B2]; [lia|].
    rewrite B2. replace (1 * 2 ^ 0) with 1 in * by reflexivity.
    rewrite round_half_even_div_1.
    destruct (Z.ltb_spec (Z.pos (Pos.iter xO mx q)) (2 ^ 53)); [|lia].
    destruct (Z.leb_spec (d + 0 - 53 + 0) 971); [|lia].
    exists (Pos.iter xO mx q), (d + 0 - 53 + 0).
    repeat split; try lia.
    intros _. rewrite iter_xO. f_equal. f_equal. lia.
Qed.

Lemma of_int_normal (T : Z) :
  T <> 0 -> Z.abs T < 2 ^ 1024 - 2 ^ 970 ->
  exists m e,
    of_int T = Some (S754_finite (T <? 0) m e) /\
    2 ^ 52 <= Z.pos m < 2 ^ 53 /\ -52 <= e <= 971 /\
    (Z.abs T < 2 ^ 52 -> e <= -1) /\
    (Z.abs T < 2 ^ 53 -> Z.pos m = Z.abs T * 2 ^ (- e)).
Proof.
  intros H0 Hb. unfold of_int, binary_normalize.
  destruct T as [|p|p]; [contradiction| |].
  - destruct (binary_round_int false p Hb) as (m & e & -> & H).
    exists m, e. split; [reflexivity | exact H].
  - destruct (binary_round_int true p Hb) as (m & e & -> & H).
    exists m, e. split; [reflexivity | exact H].
Qed.

(** ** Multiplication by a share *)

Lemma fmul_normal (s : bool) (mx my : positive) (ex ey : Z) :
  2 ^ 52 <= Z.pos mx < 2 ^ 53 -> 2 ^ 52 <= Z.pos my < 2 ^ 53 ->
  -1126 <= ex + ey -> ex + ey <= 917 ->
  exists m e,
    fmul (S754_finite s mx ex) (S754_finite false my ey) = S754_finite s m e /\
    2 ^ 52 <= Z.pos m < 2 ^ 53 /\ ex + ey + 52 <= e <= ex + ey + 54 /\
    (2 ^ 53 - 1) * (Z.pos mx * Z.pos my)
      <= 2 ^ 53 * (Z.pos m * 2 ^ (e - (ex + ey)))
      <= (2 ^ 53 + 1) * (Z.pos mx * Z.pos my).
Proof.
  intros Hx Hy Hlo Hhi. unfold fmul, SFmul.
  replace (xorb s false) with s by (now destruct s).
  rewrite Pos2Z.inj_mul.
  assert (Hprod : 2 ^ 104 <= Z.pos mx * Z.pos my < 2 ^ 106) by nia.
  assert (I : inbetween (Z.pos mx * Z.pos my) 1 (Z.pos mx * Z.pos my) loc_Exact)
    by (simpl; lia).
  assert (Hpos : 0 < Z.pos mx * Z.pos my) by lia.
  set (N := Z.pos mx * Z.pos my) in *.
  assert (Hfin : forall p, 52 <= p <= 53 -> 2 ^ (52 + p) <= N < 2 ^ (53 + p) ->
            exists m e,
              binary_round_aux prec emax s N (ex + ey) loc_Exact
                = S754_finite s m e /\
              2 ^ 52 <= Z.pos m < 2 ^ 53 /\
              ex + ey + 52 <= e <= ex + ey + 54 /\
              (2 ^ 53 - 1) * N <= 2 ^ 53 * (Z.pos m * 2 ^ (e - (ex + ey)))
                <= (2 ^ 53 + 1) * N).
  { intros p Hp HN.
    assert (Hd : Zdigits2 N = 53 + p).
    { apply Zdigits2_unique; [lia|].
      replace (53 + p - 1) with (52 + p) by lia. exact HN. }
    destruct (binary_round_aux_normal s N (ex + ey) p N 1 loc_Exact
                Z.lt_0_1 Hpos I Hd) as [B1 B2]; [lia | lia |].
    rewrite B2. rewrite Z.mul_1_l in *.
    assert (HP : 0 < 2 ^ p) by (apply Z.pow_pos_nonneg; lia).
    destruct (round_half_even_div_spec N (2 ^ p) HP) as (Hs & _ & _).
    set (m1 := round_half_even_div N (2 ^ p)) in *. clearbody m1.
    assert (HNp : 2 ^ 52 * 2 ^ p <= N) by (rewrite <- Z.pow_add_r; lia).
    destruct (Z.ltb_spec m1 (2 ^ 53)).
    - destruct (Z.leb_spec (ex + ey + p) 971); [|lia].
      exists (Z.to_pos m1), (ex + ey + p). rewrite Z2Pos.id by lia.
      replace (ex + ey + p - (ex + ey)) with p by lia.
      repeat split; try lia; nia.
    - destruct (Z.leb_spec (ex + ey + p + 1) 971); [|lia].
      exists (Z.to_pos (2 ^ 52)), (ex + ey + p + 1).
      replace (ex + ey + p + 1 - (ex + ey)) with (p + 1) by lia.
      rewrite Z.pow_add_r by lia.
      repeat split; try lia; try reflexivity;
        change (Z.pos (Z.to_pos (2 ^ 52))) with (2 ^ 52); nia. }
  destruct (Z_lt_le_dec N (2 ^ 105)) as [Hlt|Hge].
  - apply (Hfin 52); [lia|]. simpl. lia.
  - apply (Hfin 53); [lia|]. simpl. lia.
Qed.

(** ** Division by 5 *)

Lemma of_int_5 : of_int 5 = Some five.
Proof. vm_compute. reflexivity. Qed.

Lemma new_location_inbetween (D q r : Z) :
  0 < D -> 0 <= r < D ->
  inbetween (q * D + r) D q (new_location D r).
Proof.
  intros HD Hr. unfold new_location, new_location_even, new_location_odd.
  destruct (Z.even D) eqn:Ev; destruct (Z.eqb_spec r 0) as [->|Hne];
    cbn [inbetween]; try lia.
  - split; [lia|].
    destruct (Z.compare_spec (2 * r) D); cmp_goal; lia.
  - split; [lia|].
    assert (Hodd : 2 * r <> D).
    { intros E. rewrite <- E, Z.even_mul in Ev. discriminate. }
    destruct (Z.compare_spec (2 * r + 1) D); cmp_goal; lia.
Qed.

Lemma SFdiv_core_binary_5 (mx : positive) (ex : Z) :
  2 ^ 52 <= Z.pos mx < 2 ^ 53 -> -1071 <= ex ->
  SFdiv_core_binary prec emax (Z.pos mx) ex (Z.pos 5629499534213120) (-50) =
    ((Z.pos mx * 2 ^ 53) / Z.pos 5629499534213120, ex - 3,
     new_location (Z.pos 5629499534213120)
                  ((Z.pos mx * 2 ^ 53) mod Z.pos 5629499534213120)).
Proof.
  intros Hx He. unfold SFdiv_core_binary.
  rewrite (Zdigits2_unique (Z.pos mx) 53) by (simpl; lia).
  change (Zdigits2 (Z.pos 5629499534213120)) with 53.
  rewrite fexp_normal by lia.
  rewrite Z.min_l by lia.
  replace (ex - -50 - (53 + ex - (53 + -50) - 53)) with 53 by lia.
  cbv iota. rewrite Z.shiftl_mul_pow2 by lia.
  unfold Z.div, Z.modulo.
  destruct (Z.div_eucl (Z.pos mx * 2 ^ 53) (Z.pos 5629499534213120)) as [q r].
  cbn [fst snd]. f_equal. f_equal. lia.
Qed.

Lemma fdiv_5_normal (s : bool) (mx : positive) (ex : Z) :
  2 ^ 52 <= Z.pos mx < 2 ^ 53 -> -1071 <= ex <= 971 ->
  exists a m e,
    (a = 0 \/ a = 1) /\
    fdiv (S754_finite s mx ex) five = S754_finite s m e /\
    2 ^ 52 <= Z.pos m < 2 ^ 53 /\
    ex - 3 + a <= e <= ex - 3 + a + 1 /\
    Z.pos m * 2 ^ (e - (ex - 3 + a)) =
      round_half_even_div (Z.pos mx * 2 ^ 53) (5 * 2 ^ 50 * 2 ^ a).
Proof.
  intros Hx He. unfold fdiv, five, SFdiv.
  rewrite SFdiv_core_binary_5 by lia.
  replace (xorb s false) with s by (now destruct s).
  change (Z.pos 5629499534213120) with (5 * 2 ^ 50).
  set (N := Z.pos mx * 2 ^ 53). set (D := 5 * 2 ^ 50).
  assert (HD : 0 < D) by reflexivity.
  pose proof (Z.mod_pos_bound N D HD) as Hr.
  pose proof (new_location_inbetween D (N / D) (N mod D) HD Hr) as I.
  replace (N / D * D + N mod D) with N in I
    by (rewrite (Z.div_mod N D) at 1; lia).
  assert (Hq : 2 ^ 52 < N / D < 2 ^ 54).
  { split.
    - apply Z.lt_le_trans with (2 ^ 52 + 1); [lia|].
      apply Z.div_le_lower_bound; [lia|]. unfold N, D. lia.
    - apply Z.div_lt_upper_bound; [lia|]. unfold N, D. lia. }
  assert (Hq0 : 0 < N / D) by lia.
  assert (Hfin : forall a, (a = 0 \/ a = 1) -> Zdigits2 (N / D) = 53 + a ->
            exists m e,
              binary_round_aux prec emax s (N / D) (ex - 3)
                (new_location D (N mod D)) = S754_finite s m e /\
              2 ^ 52 <= Z.pos m < 2 ^ 53 /\
              ex - 3 + a <= e <= ex - 3 + a + 1 /\
              Z.pos m * 2 ^ (e - (ex - 3 + a)) =
                round_half_even_div N (D * 2 ^ a)).
  { intros a Ha Hd.
    destruct (binary_round_aux_normal s (N / D) (ex - 3) a N D _ HD Hq0 I Hd)
      as [B1 B2]; [lia | lia |].
    rewrite B2. set (m1 := round_half_even_div N (D * 2 ^ a)) in *.
    destruct (Z.ltb_spec m1 (2 ^ 53)).
    - destruct (Z.leb_spec (ex - 3 + a) 971); [|lia].
      exists (Z.to_pos m1), (ex - 3 + a). rewrite Z2Pos.id by lia.
      rewrite Z.sub_diag. repeat split; lia.
    - destruct (Z.leb_spec (ex - 3 + a + 1) 971); [|lia].
      exists (Z.to_pos (2 ^ 52)), (ex - 3 + a + 1).
      replace (ex - 3 + a + 1 - (ex - 3 + a)) with 1 by lia.
      repeat split; try lia; try reflexivity. }
  destruct (Z_lt_le_dec (N / D) (2 ^ 53)) as [Hlt|Hge].
  - destruct (Hfin 0) as (m & e & H1 & H2 & H3 & H4);
      [now left | apply Zdigits2_unique; simpl; lia |].
    exists 0, m, e. auto.
  - destruct (Hfin 1) as (m & e & H1 & H2 & H3 & H4);
      [now right | apply Zdigits2_unique; simpl; lia |].
    exists 1, m, e. auto.
Qed.

(** ** Rounding the quotient by 5 is rounding the exact quotient *)

Lemma ceil_div_spec (n d : Z) :
  0 < d -> (ceil_div n d - 1) * d < n <= ceil_div n d * d.
Proof.
  intros Hd. unfold ceil_div.
  assert (Hd0 : d <> 0) by lia.
  pose proof (Z.div_mod (- n) d Hd0). pose proof (Z.mod_pos_bound (- n) d Hd).
  nia.
Qed.

Lemma ceil_div_unique (n d c : Z) :
  0 < d -> (c - 1) * d < n <= c * d -> ceil_div n d = c.
Proof.
  intros Hd H. pose proof (ceil_div_spec n d Hd). nia.
Qed.

(** The mantissa [M] of the rounded quotient against a point [J] of the
    grid of quarter units: it lies where the exact quotient does. *)
Lemma quotient_5_grid (mx a J : Z) :
  a = 0 \/ a = 1 -> (4 | J) ->
  let M := round_half_even_div (mx * 2 ^ 53) (5 * 2 ^ 50 * 2 ^ a) in
  (M < J <-> mx * 2 ^ 53 < J * (5 * 2 ^ 50 * 2 ^ a)) /\
  (M = J <-> mx * 2 ^ 53 = J * (5 * 2 ^ 50 * 2 ^ a)).
Proof.
  intros Ha [j ->] M.
  assert (HD : 0 < 5 * 2 ^ 50 * 2 ^ a) by (destruct Ha; subst a; reflexivity).
  destruct (round_half_even_div_spec (mx * 2 ^ 53) (5 * 2 ^ 50 * 2 ^ a) HD)
    as (Hb & _ & _).
  fold M in Hb. clearbody M.
  destruct Ha; subst a; change (2 ^ 0) with 1 in *; change (2 ^ 1) with 2 in *;
    change (2 ^ 50) with 1125899906842624 in *;
    change (2 ^ 53) with 9007199254740992 in *; lia.
Qed.

Lemma quotient_5_core (mx m a dl K' P : Z) :
  a = 0 \/ a = 1 -> dl = 0 \/ dl = 1 -> 0 < K' ->
  P * 2 ^ dl = 2 ^ (3 - a) * (2 * K') ->
  m * 2 ^ dl = round_half_even_div (mx * 2 ^ 53) (5 * 2 ^ 50 * 2 ^ a) ->
  (forall c, (c - 1) * P < m <= c * P ->
             (c - 1) * (5 * (2 * K')) < mx <= c * (5 * (2 * K'))) /\
  (forall r, (2 * r - 1) * P <= 2 * m <= (2 * r + 1) * P ->
             ((2 * r - 1) * (5 * (2 * K')) <= 2 * mx
                <= (2 * r + 1) * (5 * (2 * K'))) /\
             (2 * mx = (2 * r + 1) * (5 * (2 * K')) ->
              2 * m = (2 * r + 1) * P) /\
             (2 * mx = (2 * r - 1) * (5 * (2 * K')) ->
              2 * m = (2 * r - 1) * P)).
Proof.
  intros Ha Hdl HK HP HM.
  assert (G := fun j => quotient_5_grid mx a (4 * j) Ha
                          (Z.divide_factor_l 4 j)).
  cbv zeta in G. rewrite <- HM in G. clear HM.
  split.
  - intros c Hc.
    pose proof (G (c * 2 ^ (1 - a) * (2 * K'))) as G2.
    pose proof (G ((c - 1) * 2 ^ (1 - a) * (2 * K'))) as G1.
    destruct Ha; subst a; destruct Hdl; subst dl;
      change (2 ^ 0) with 1 in *; change (2 ^ 1) with 2 in *;
      change (2 ^ (1 - 0)) with 2 in *; change (2 ^ (1 - 1)) with 1 in *;
      change (2 ^ (3 - 0)) with 8 in *; change (2 ^ (3 - 1)) with 4 in *;
      change (2 ^ 50) with 1125899906842624 in *;
      change (2 ^ 53) with 9007199254740992 in *; lia.
  - intros r Hr.
    pose proof (G ((2 * r + 1) * 2 ^ (1 - a) * K')) as G2.
    pose proof (G ((2 * r - 1) * 2 ^ (1 - a) * K')) as G1.
    destruct Ha; subst a; destruct Hdl; subst dl;
      change (2 ^ 0) with 1 in *; change (2 ^ 1) with 2 in *;
      change (2 ^ (1 - 0)) with 2 in *; change (2 ^ (1 - 1)) with 1 in *;
      change (2 ^ (3 - 0)) with 8 in *; change (2 ^ (3 - 1)) with 4 in *;
      change (2 ^ 50) with 1125899906842624 in *;
      change (2 ^ 53) with 9007199254740992 in *; lia.
Qed.

Lemma quotient_5_rounding (mx : positive) (ex : Z) :
  2 ^ 52 <= Z.pos mx < 2 ^ 53 -> -1071 <= ex <= -1 ->
  exists q,
    float_div_int (S754_finite false mx ex) 5 = Some q /\
    py_ceil q = Some (ceil_div (Z.pos mx) (5 * 2 ^ (- ex))) /\
    py_round q = Some (round_half_even_div (Z.pos mx) (5 * 2 ^ (- ex))).
Proof.
  intros Hx He. unfold float_div_int. cbn [Z.eqb]. rewrite of_int_5. cbn [bind].
  assert (He2 : -1071 <= ex <= 971) by lia.
  destruct (fdiv_5_normal false mx ex Hx He2)
    as (a & m & e & Ha & -> & Hm & Hexp & HM).
  eexists. split; [reflexivity|].
  assert (HK : 2 ^ (- ex) = 2 * 2 ^ (- ex - 1)).
  { rewrite <- Z.pow_succ_r by lia. f_equal. lia. }
  assert (HK' : 0 < 2 ^ (- ex - 1)) by (apply Z.pow_pos_nonneg; lia).
  set (K' := 2 ^ (- ex - 1)) in *. rewrite HK.
  assert (Hdl : e - (ex - 3 + a) = 0 \/ e - (ex - 3 + a) = 1) by lia.
  assert (HP : 0 < 2 ^ (- e)) by (apply Z.pow_pos_nonneg; lia).
  assert (HPK : 2 ^ (- e) * 2 ^ (e - (ex - 3 + a)) = 2 ^ (3 - a) * (2 * K')).
  { rewrite <- HK, <- !Z.pow_add_r by lia. f_equal. lia. }
  destruct (quotient_5_core (Z.pos mx) (Z.pos m) a (e - (ex - 3 + a)) K'
              (2 ^ (- e)) Ha Hdl HK' HPK HM) as [Cc Cr].
  unfold py_ceil, py_round.
  destruct (Z.leb_spec 0 e) as [|_]; [lia|].
  fold (ceil_div (Z.pos m) (2 ^ (- e))).
  assert (H5K : 0 < 5 * (2 * K')) by lia.
  split; f_equal.
  - symmetry. apply ceil_div_unique; [exact H5K|].
    apply Cc. apply ceil_div_spec. exact HP.
  - symmetry.
    destruct (round_half_even_div_spec (Z.pos m) (2 ^ (- e)) HP)
      as (Hr & Hru & Hrl).
    destruct (Cr _ Hr) as (B & Bu & Bl).
    apply round_half_even_div_unique; auto.
Qed.

(** ** Dictionaries: shape lemmas *)

Section DictFacts.
Context {V W : Type}.

Lemma bind_Some {A B} (x : option A) (k : A -> option B) (b : B) :
  bind x k = Some b -> exists a, x = Some a /\ k a = Some b.
Proof. destruct x as [a|]; simpl; [eauto | discriminate]. Qed.

Lemma bind_ret {A B} (x : option A) (g : A -> B) (b : B) :
  bind x (fun a => Some (g a)) = Some b -> exists a, x = Some a /\ b = g a.
Proof.
  destruct x as [a|]; simpl; [|discriminate].
  intros H. exists a. split; [reflexivity | congruence].
Qed.

Lemma map_values_spec (f : V -> option W) (d : dict V) (d' : dict W) :
  map_values f d = Some d' ->
  Forall2 (fun kv kw => fst kw = fst kv /\ f (snd kv) = Some (snd kw)) d d'.
Proof.
  revert d'. induction d as [|[k v] d IH]; intros d' H.
  - injection H as <-. constructor.
  - unfold map_values in H. simpl in H.
    apply bind_Some in H as (kw & Hkw & H).
    apply bind_Some in Hkw as (w & Hw & Hkw). injection Hkw as <-.
    apply bind_Some in H as (ws & Hws & H). injection H as <-.
    constructor; [split; [reflexivity | exact Hw] | apply IH, Hws].
Qed.

Lemma map_items_spec (f : string -> V -> option W) (d : dict V) (d' : dict W) :
  map_items f d = Some d' ->
  Forall2 (fun kv kw => fst kw = fst kv /\ f (fst kv) (snd kv) = Some (snd kw))
          d d'.
Proof.
  revert d'. induction d as [|[k v] d IH]; intros d' H.
  - injection H as <-. constructor.
  - unfold map_items in H. simpl in H.
    apply bind_Some in H as (kw & Hkw & H).
    apply bind_Some in Hkw as (w & Hw & Hkw). injection Hkw as <-.
    apply bind_Some in H as (ws & Hws & H). injection H as <-.
    constructor; [split; [reflexivity | exact Hw] | apply IH, Hws].
Qed.

Lemma Forall2_keys (P : V -> W -> Prop) (d : dict V) (d' : dict W) :
  Forall2 (fun kv kw => fst kw = fst kv /\ P (snd kv) (snd kw)) d d' ->
  keys d' = keys d.
Proof.
  induction 1 as [|kv kw d d' [Hk _] _ IH]; simpl; [reflexivity|].
  now rewrite Hk, IH.
Qed.

Lemma map_values_keys (f : V -> option W) d d' :
  map_values f d = Some d' -> keys d' = keys d.
Proof.
  intros H. apply map_values_spec in H.
  exact (Forall2_keys (fun v w => f v = Some w) _ _ H).
Qed.

Lemma keys_cons_inv (d : dict V) k ks :
  keys d = k :: ks -> exists v d', d = (k, v) :: d' /\ keys d' = ks.
Proof.
  destruct d as [|[k' v] d']; simpl; [discriminate|].
  intros H. injection H as -> <-. eauto.
Qed.

Lemma keys_nil_inv (d : dict V) : keys d = [] -> d = [].
Proof. destruct d; [reflexivity | discriminate]. Qed.

Lemma get_set_same (k : string) (v : V) (d : dict V) :
  get k (set k v d) = Some v.
Proof.
  induction d as [|[k' v'] d IH]; simpl.
  - now rewrite String.eqb_refl.
  - destruct (String.eqb k k') eqn:E; simpl; rewrite E; [reflexivity | exact IH].
Qed.

Lemma get_set_other (k k0 : string) (v : V) (d : dict V) :
  k0 <> k -> get k0 (set k v d) = get k0 d.
Proof.
  intros Hne. induction d as [|[k' v'] d IH]; simpl.
  - destruct (String.eqb_spec k0 k); [contradiction | reflexivity].
  - destruct (String.eqb_spec k k') as [->|_]; simpl.
    + destruct (String.eqb_spec k0 k'); [contradiction | reflexivity].
    + now rewrite IH.
Qed.

Lemma keys_set_present (k : string) (v : V) (d : dict V) :
  In k (keys d) -> keys (set k v d) = keys d.
Proof.
  induction d as [|[k' v'] d IH]; simpl; [tauto|].
  intros Hin. destruct (String.eqb_spec k k') as [->|Hne]; simpl.
  - reflexivity.
  - f_equal. apply IH. destruct Hin; [congruence | assumption].
Qed.

Lemma get_None_keys (k : string) (d : dict V) :
  get k d = None <-> ~ In k (keys d).
Proof.
  induction d as [|[k' v'] d IH]; simpl; [tauto|].
  destruct (String.eqb_spec k k') as [->|Hne].
  - split; [discriminate | intros H; exfalso; apply H; now left].
  - rewrite IH. split; intros H; [intros [E|E]; [congruence | tauto] | tauto].
Qed.

Lemma get_Some_keys (k : string) (v : V) (d : dict V) :
  get k d = Some v -> In k (keys d).
Proof.
  intros H. destruct (in_dec string_dec k (keys d)) as [Hin|Hn]; [exact Hin|].
  apply get_None_keys in Hn. congruence.
Qed.
End DictFacts.

Lemma map_items_keys {V W} (f : string -> V -> option W) d d' :
  map_items f d = Some d' -> keys d' = keys d.
Proof.
  revert d'. induction d as [|[k v] d IH]; intros d' H.
  - injection H as <-. reflexivity.
  - unfold map_items in H. simpl in H.
    apply bind_Some in H as (kw & Hkw & H).
    apply bind_Some in Hkw as (w & Hw & Hkw). injection Hkw as <-.
    apply bind_Some in H as (ws & Hws & H). injection H as <-.
    simpl. f_equal. apply IH, Hws.
Qed.

Lemma fold_add_acc (l : list Z) (a : Z) :
  fold_left Z.add l a = a + fold_left Z.add l 0.
Proof.
  revert a. induction l as [|y l IH]; intros a; simpl; [lia|].
  rewrite (IH (a + y)), (IH y). lia.
Qed.

Lemma sum_cons (x : Z) (l : list Z) : sum (x :: l) = x + sum l.
Proof. unfold sum. simpl. apply fold_add_acc. Qed.

Lemma sum_nil : sum [] = 0.
Proof. reflexivity. Qed.

(** ** The share tables *)

(** The five literals of the source denote these doubles. *)
Lemma base_distribution_literals :
  base_distribution =
    [ ("Front", S754_finite false 5404319552844595 (-54));
      ("Left Side", S754_finite false 7493989779944505 (-55));
      ("Right Side", S754_finite false 7493989779944505 (-55));
      ("Rear", S754_finite false 8430738502437569 (-56));
      ("Turret", S754_finite false 6016809102166983 (-55)) ] /\
  Forall2 nearest_double (values base_distribution)
          [30 # 100; 208 # 1000; 208 # 1000; 117 # 1000; 167 # 1000]%Q.
Proof.
  split; [vm_compute; reflexivity|].
  repeat constructor; vm_compute; reflexivity.
Qed.

Lemma distribution_percent_false :
  distribution_percent false =
  Some [ ("Front", S754_finite false 5404319552844595 (-54));
         ("Left Side", S754_finite false 7493989779944505 (-55));
         ("Right Side", S754_finite false 7493989779944505 (-55));
         ("Rear", S754_finite false 8430738502437569 (-56));
         ("Turret", S754_finite false 6016809102166983 (-55)) ].
Proof. vm_compute. reflexivity. Qed.

Lemma distribution_percent_true :
  distribution_percent true =
  Some [ ("Front", S754_finite false 6156420690615468 (-54));
         ("Left Side", S754_finite false 8998192055486251 (-55));
         ("Right Side", S754_finite false 8998192055486251 (-55));
         ("Rear", S754_finite false 5719571526760530 (-55)) ].
Proof. vm_compute. reflexivity. Qed.

Lemma distribution_percent_keys rt :
  exists dp, distribution_percent rt = Some dp /\ keys dp = facings rt.
Proof.
  destruct rt.
  - rewrite distribution_percent_true. eexists. split; reflexivity.
  - rewrite distribution_percent_false. eexists. split; reflexivity.
Qed.

(** The two branches, each as its rounding followed by its adjustment. *)
Lemma default_run T rt :
  calculate_armour_distribution T false rt =
  (ad <- default_rounding T rt ;;
   if T - sum (values ad) >? 0
   then distribute_leftover (facings rt) ad (T - sum (values ad))
   else Some ad).
Proof.
  unfold calculate_armour_distribution, default_rounding.
  destruct (distribution_percent_keys rt) as (dp & -> & <-). simpl.
  destruct (raw_allocations T dp); reflexivity.
Qed.

Lemma coarse_run T rt :
  calculate_armour_distribution T true rt =
  (ra <- coarse_rounding T rt ;; reconcile T ra).
Proof.
  unfold calculate_armour_distribution, coarse_rounding.
  destruct (distribution_percent rt); simpl; [|reflexivity].
  destruct (raw_allocations T d); reflexivity.
Qed.

Lemma default_rounding_keys T rt ad :
  default_rounding T rt = Some ad -> keys ad = facings rt.
Proof.
  unfold default_rounding. intros H.
  destruct (distribution_percent_keys rt) as (dp & E & <-). rewrite E in H.
  simpl in H. apply bind_Some in H as (raw & Hraw & H).
  apply map_values_keys in Hraw. apply map_values_keys in H. congruence.
Qed.

Lemma coarse_rounding_keys T rt ra :
  coarse_rounding T rt = Some ra -> keys ra = facings rt.
Proof.
  unfold coarse_rounding. intros H.
  destruct (distribution_percent_keys rt) as (dp & E & <-). rewrite E in H.
  simpl in H. apply bind_Some in H as (raw & Hraw & H).
  apply map_values_keys in Hraw. apply map_items_keys in H. congruence.
Qed.

Lemma round_to_nearest_5_mult n v : round_to_nearest_5 n = Some v -> (5 | v).
Proof.
  unfold round_to_nearest_5. intros H.
  apply bind_Some in H as (q & _ & H). apply bind_ret in H as (r & _ & ->).
  exists r. lia.
Qed.

Lemma round_up_to_5_mult n v : round_up_to_5 n = Some v -> (5 | v).
Proof.
  unfold round_up_to_5. intros H.
  apply bind_Some in H as (q & _ & H). apply bind_ret in H as (r & _ & ->).
  exists r. lia.
Qed.

Lemma coarse_rounding_mult5 T rt ra :
  coarse_rounding T rt = Some ra -> Forall (fun v => (5 | v)) (values ra).
Proof.
  unfold coarse_rounding. intros H.
  apply bind_Some in H as (dp & _ & H). apply bind_Some in H as (raw & _ & H).
  apply map_items_spec in H. clear - H.
  induction H as [|[k x] [k' v] raw ra [_ Hv] _ IH]; simpl; constructor.
  - simpl in Hv. destruct (String.eqb k "Front").
    + exact (round_up_to_5_mult _ _ Hv).
    + exact (round_to_nearest_5_mult _ _ Hv).
  - exact IH.
Qed.

(** A dictionary over the surviving facings, entry by entry. *)
Lemma facings_shape {V} (rt : bool) (d : dict V) :
  keys d = facings rt ->
  exists a b c r,
    if rt then
      d = [("Front", a); ("Left Side", b); ("Right Side", c); ("Rear", r)]
    else
      exists t, d = [("Front", a); ("Left Side", b); ("Right Side", c);
                     ("Rear", r); ("Turret", t)].
Proof.
  intros H. destruct rt; simpl in H.
  - apply keys_cons_inv in H as (a & d1 & -> & H).
    apply keys_cons_inv in H as (b & d2 & -> & H).
    apply keys_cons_inv in H as (c & d3 & -> & H).
    apply keys_cons_inv in H as (r & d4 & -> & H).
    apply keys_nil_inv in H as ->. now exists a, b, c, r.
  - apply keys_cons_inv in H as (a & d1 & -> & H).
    apply keys_cons_inv in H as (b & d2 & -> & H).
    apply keys_cons_inv in H as (c & d3 & -> & H).
    apply keys_cons_inv in H as (r & d4 & -> & H).
    apply keys_cons_inv in H as (t & d5 & -> & H).
    apply keys_nil_inv in H as ->. exists a, b, c, r. now exists t.
Qed.

(** ** The adjustment steps on a dictionary over the facings *)

Ltac by_key k :=
  simpl;
  repeat match goal with
         | |- context [String.eqb k ?s] => destruct (String.eqb_spec k s)
         end;
  try reflexivity; try congruence.

Ltac facing_shape H :=
  let a := fresh "a" in let b := fresh "b" in let c := fresh "c" in
  let r := fresh "r" in let t := fresh "t" in
  apply facings_shape in H as (a & b & c & r & H);
  try destruct H as (t & H); subst.

Lemma reconcile_keys T rt ra d :
  keys ra = facings rt -> reconcile T ra = Some d -> keys d = facings rt.
Proof.
  intros Hk H. destruct rt; facing_shape Hk; unfold reconcile in H;
    cbn [get set mem values map snd fst String.eqb Ascii.eqb Bool.eqb andb bind]
      in H;
    repeat match type of H with
           | context [if ?c then _ else _] => destruct c
           end;
    injection H as <-; reflexivity.
Qed.

Lemma distribute_leftover_keys rt ad n d :
  keys ad = facings rt ->
  distribute_leftover (facings rt) ad n = Some d -> keys d = facings rt.
Proof.
  intros Hk H. destruct rt; facing_shape Hk;
    cbn [facings distribute_leftover get set String.eqb Ascii.eqb Bool.eqb bind]
      in H;
    repeat match type of H with
           | context [if ?c then _ else _] => destruct c
           end;
    injection H as <-; reflexivity.
Qed.

Lemma calculate_keys T re rt d :
  calculate_armour_distribution T re rt = Some d -> keys d = facings rt.
Proof.
  destruct re.
  - rewrite coarse_run. intros H. apply bind_Some in H as (ra & Hra & H).
    apply coarse_rounding_keys in Hra. eapply reconcile_keys; eassumption.
  - rewrite default_run. intros H. apply bind_Some in H as (ad & Had & H).
    apply default_rounding_keys in Had.
    destruct (T - sum (values ad) >? 0).
    + eapply distribute_leftover_keys; eassumption.
    + injection H as <-. exact Had.
Qed.

(** ** Coarse policy: reconciliation of an overage *)

Ltac unfold_reconcile :=
  unfold reconcile;
  cbn [get set mem values map snd fst String.eqb Ascii.eqb Bool.eqb andb bind];
  repeat rewrite sum_cons; rewrite sum_nil.

Ltac unfold_reconcile_in H :=
  unfold reconcile in H;
  cbn [get set mem values map snd fst String.eqb Ascii.eqb Bool.eqb andb bind]
    in H;
  repeat rewrite sum_cons in H; rewrite sum_nil in H.

Lemma reconcile_overage (T : Z) (rt : bool) (ra : dict Z) :
  keys ra = facings rt ->
  sum (values ra) > T ->
  exists rear d,
    get "Rear" ra = Some rear /\
    reconcile T ra = Some d /\
    keys d = keys ra /\
    (rear >= sum (values ra) - T ->
       get "Rear" d = Some (rear - (sum (values ra) - T)) /\
       forall k, k <> "Rear" -> get k d = get k ra) /\
    (rear < sum (values ra) - T ->
       get "Rear" d = Some 0 /\
       (forall t, get "Turret" ra = Some t ->
          get "Turret" d = Some (Z.max 0 (t - (sum (values ra) - T - rear)))) /\
       forall k, k <> "Rear" -> k <> "Turret" -> get k d = get k ra).
Proof.
  intros Hk Hgt.
  destruct rt; facing_shape Hk; exists r; unfold_reconcile;
    cbn [values map snd] in Hgt; repeat rewrite sum_cons in Hgt;
    rewrite sum_nil in Hgt.
  - destruct (Z.gtb_spec (a + (b + (c + (r + 0)))) T) as [_|]; [|lia].
    destruct (Z.geb_spec r (a + (b + (c + (r + 0))) - T)) as [Hge|Hlt];
      eexists; (split; [reflexivity|]); (split; [reflexivity|]);
      (split; [reflexivity|]); split; intros Hc; try lia.
    + split; [reflexivity|]. intros k Hne. by_key k.
    + split; [reflexivity|]. split; [discriminate|]. intros k Hne _. by_key k.
  - destruct (Z.gtb_spec (a + (b + (c + (r + (t + 0))))) T) as [_|]; [|lia].
    destruct (Z.geb_spec r (a + (b + (c + (r + (t + 0)))) - T)) as [Hge|Hlt];
      eexists; (split; [reflexivity|]); (split; [reflexivity|]);
      (split; [reflexivity|]); split; intros Hc; try lia.
    + split; [reflexivity|]. intros k Hne. by_key k.
    + split; [reflexivity|]. split.
      * intros t' Ht'. injection Ht' as <-. reflexivity.
      * intros k Hne Hne'. by_key k.
Qed.

(** C2. Coarse policy, rounded total above the total: the overage comes off
    Rear when Rear's rounded value is at least the overage; otherwise Rear
    becomes 0 and what is left of the overage comes off Turret, when there
    is a Turret, never taking it below 0.  No other facing changes. *)
Theorem coarse_overage_reconciliation (T : Z) (rt : bool) (ra : dict Z) :
  coarse_rounding T rt = Some ra ->
  sum (values ra) > T ->
  exists rear d,
    get "Rear" ra = Some rear /\
    calculate_armour_distribution T true rt = Some d /\
    keys d = keys ra /\
    (rear >= sum (values ra) - T ->
       get "Rear" d = Some (rear - (sum (values ra) - T)) /\
       forall k, k <> "Rear" -> get k d = get k ra) /\
    (rear < sum (values ra) - T ->
       get "Rear" d = Some 0 /\
       (forall t, get "Turret" ra = Some t ->
          get "Turret" d = Some (Z.max 0 (t - (sum (values ra) - T - rear)))) /\
       forall k, k <> "Rear" -> k <> "Turret" -> get k d = get k ra).
Proof.
  intros Hra Hgt. rewrite coarse_run, Hra. cbn [bind].
  apply (reconcile_overage T rt ra); [|exact Hgt].
  exact (coarse_rounding_keys _ _ _ Hra).
Qed.

Lemma coarse_overage_reconciliation_witness :
  exists rear d,
    get "Rear" [("Front", 5); ("Left Side", 5); ("Right Side", 5);
                ("Rear", 0); ("Turret", 5)] = Some rear /\
    calculate_armour_distribution 16 true false = Some d /\
    get "Rear" d = Some 0 /\ get "Turret" d = Some 1.
Proof.
  destruct (coarse_overage_reconciliation 16 false
              [("Front", 5); ("Left Side", 5); ("Right Side", 5);
               ("Rear", 0); ("Turret", 5)])
    as (rear & d & Hr & Hd & _ & _ & Hlt).
  - vm_compute. reflexivity.
  - reflexivity.
  - exists rear, d. split; [exact Hr|]. split; [exact Hd|].
    injection Hr as <-.
    destruct Hlt as (H0 & Ht & _); [reflexivity|].
    split; [exact H0|]. exact (Ht 5 eq_refl).
Defined.

(** C9. Coarse policy without Turret: when the rounded total is above the
    total and Rear's rounded value is below the overage, Rear becomes 0,
    every other facing keeps its rounded value, and the values returned
    add up to the rounded total less Rear's rounded value, which is
    strictly more than the total asked for. *)
Theorem coarse_over_allocation_without_turret (T : Z) (ra : dict Z) (rear : Z) :
  coarse_rounding T true = Some ra ->
  sum (values ra) > T ->
  get "Rear" ra = Some rear ->
  rear < sum (values ra) - T ->
  exists d,
    calculate_armour_distribution T true true = Some d /\
    get "Rear" d = Some 0 /\
    (forall k, k <> "Rear" -> get k d = get k ra) /\
    sum (values d) = sum (values ra) - rear /\
    sum (values d) > T.
Proof.
  intros Hra Hgt Hrear Hlt.
  destruct (reconcile_overage T true ra (coarse_rounding_keys _ _ _ Hra) Hgt)
    as (rear' & d & Hrear' & Hd & Hk & _ & Hcase).
  rewrite Hrear in Hrear'. injection Hrear' as <-.
  destruct (Hcase Hlt) as (H0 & _ & Hoth).
  exists d. split; [rewrite coarse_run, Hra; exact Hd|]. split; [exact H0|].
  pose proof (coarse_rounding_keys _ _ _ Hra) as Hkra.
  assert (Hkd : keys d = facings true) by congruence.
  assert (Hoth' : forall k, k <> "Rear" -> get k d = get k ra).
  { intros k Hne. destruct (string_dec k "Turret") as [->|Hne'].
    - transitivity (@None Z).
      + apply get_None_keys. rewrite Hkd. simpl. intuition discriminate.
      + symmetry. apply get_None_keys. rewrite Hkra. simpl.
        intuition discriminate.
    - now apply Hoth. }
  split; [exact Hoth'|].
  facing_shape Hkra. facing_shape Hkd.
  pose proof (Hoth' "Front" ltac:(discriminate)) as HF.
  pose proof (Hoth' "Left Side" ltac:(discriminate)) as HL.
  pose proof (Hoth' "Right Side" ltac:(discriminate)) as HR.
  simpl in HF, HL, HR, H0, Hrear.
  injection HF as ->. injection HL as ->. injection HR as ->.
  injection H0 as ->. injection Hrear as ->.
  cbn [values map snd] in *.
  repeat rewrite sum_cons in *. rewrite sum_nil in *. lia.
Qed.

Lemma coarse_over_allocation_without_turret_witness :
  exists d,
    calculate_armour_distribution 3 true true = Some d /\
    get "Rear" d = Some 0 /\ sum (values d) > 3.
Proof.
  destruct (coarse_over_allocation_without_turret 3
              [("Front", 5); ("Left Side", 0); ("Right Side", 0); ("Rear", 0)]
              0)
    as (d & Hd & H0 & _ & _ & Hs).
  - vm_compute. reflexivity.
  - reflexivity.
  - reflexivity.
  - reflexivity.
  - exists d. auto.
Defined.

(** ** Coarse policy: multiples of 5 *)

Lemma div5_iff (v : Z) : (5 | v) <-> v mod 5 = 0.
Proof. symmetry. apply Z.mod_divide. discriminate. Qed.

Ltac div5 :=
  rewrite ?div5_iff in *; Z.to_euclidean_division_equations; lia.

Ltac split_ifs H :=
  repeat match type of H with
         | context [if ?c then _ else _] =>
             let E := fresh "E" in destruct c eqn:E
         end.

(** C3 as stated fails: with 101 points the shortfall of 1 goes to Front,
    which ends at 36. *)
Lemma coarse_multiple_of_5_counterexample :
  exists d,
    calculate_armour_distribution 101 true false = Some d /\
    get "Front" d = Some 36 /\ ~ (5 | 36).
Proof.
  eexists. split; [vm_compute; reflexivity|]. split; [reflexivity|].
  intros [z Hz]. lia.
Qed.

(** C3, amended. Coarse policy: every per-facing rounding is divisible by 5
    before the total is reconciled; after the reconciliation Left Side and
    Right Side still are, and every value is whenever the total asked for
    is itself divisible by 5. *)
Theorem coarse_multiple_of_5 (T : Z) (rt : bool) (d : dict Z) :
  calculate_armour_distribution T true rt = Some d ->
  exists ra,
    coarse_rounding T rt = Some ra /\
    Forall (fun v => (5 | v)) (values ra) /\
    (forall k v, k <> "Front" -> k <> "Rear" -> k <> "Turret" ->
                 get k d = Some v -> (5 | v)) /\
    ((5 | T) -> Forall (fun v => (5 | v)) (values d)).
Proof.
  rewrite coarse_run. intros H. apply bind_Some in H as (ra & Hra & H).
  exists ra. split; [exact Hra|].
  pose proof (coarse_rounding_mult5 _ _ _ Hra) as H5.
  pose proof (coarse_rounding_keys _ _ _ Hra) as Hk. clear Hra.
  split; [exact H5|].
  destruct rt; facing_shape Hk; cbn [values map snd] in H5;
    repeat match goal with
           | H : Forall _ (_ :: _) |- _ => inversion H; subst; clear H
           end;
    unfold_reconcile_in H; split_ifs H; try discriminate;
    injection H as <-; (split; [intros k v; by_key k; intros; congruence|]);
    intros HT; cbn [values map snd]; repeat constructor;
    try assumption; div5.
Qed.

Lemma coarse_multiple_of_5_witness :
  exists ra,
    coarse_rounding 100 false = Some ra /\
    Forall (fun v => (5 | v)) (values ra) /\
    Forall (fun v => (5 | v))
           (values [("Front", 35); ("Left Side", 20); ("Right Side", 20);
                    ("Rear", 10); ("Turret", 15)]).
Proof.
  destruct (coarse_multiple_of_5 100 false
              [("Front", 35); ("Left Side", 20); ("Right Side", 20);
               ("Rear", 10); ("Turret", 15)])
    as (ra & Hra & H5 & _ & Hall).
  - vm_compute. reflexivity.
  - exists ra. split; [exact Hra|]. split; [exact H5|].
    apply Hall. exists 20. reflexivity.
Defined.

(** ** Default policy *)

(** C8. Scenario A: 480 points, default policy, Turret kept. *)
Theorem scenario_A :
  calculate_armour_distribution 480 false false =
    Some [("Front", 144); ("Left Side", 100); ("Right Side", 100);
          ("Rear", 56); ("Turret", 80)] /\
  sum [144; 100; 100; 56; 80] = 480.
Proof. split; vm_compute; reflexivity. Qed.

(** C1 at 3 points: the roundings 1, 1, 1, 0, 1 already add up to 4, the
    default branch only ever adds points, and 4 is returned for a total
    of 3. *)
Theorem default_sum_overshoot :
  default_rounding 3 false =
    Some [("Front", 1); ("Left Side", 1); ("Right Side", 1);
          ("Rear", 0); ("Turret", 1)] /\
  calculate_armour_distribution 3 false false =
    Some [("Front", 1); ("Left Side", 1); ("Right Side", 1);
          ("Rear", 0); ("Turret", 1)] /\
  sum (values [("Front", 1); ("Left Side", 1); ("Right Side", 1);
               ("Rear", 0); ("Turret", 1)]) = 4.
Proof. split; [|split]; vm_compute; reflexivity. Qed.

(** ** Every step succeeds on a convertible total *)

Lemma map_values_total {V W} (f : V -> option W) (Q : W -> Prop) (d : dict V) :
  Forall (fun v => exists w, f v = Some w /\ Q w) (values d) ->
  exists d', map_values f d = Some d' /\ keys d' = keys d /\
             Forall Q (values d').
Proof.
  induction d as [|[k v] d IH]; intros H.
  - exists []. repeat split. constructor.
  - cbn [values map snd] in H. inversion H as [|? ? (w & Hw & HQ) Hd]; subst.
    destruct (IH Hd) as (d' & E & Hk & HF).
    exists ((k, w) :: d'). unfold map_values in *. cbn [mapM fst snd].
    rewrite Hw. cbn [bind]. rewrite E. cbn [bind].
    repeat split; [simpl; now rewrite Hk | now constructor].
Qed.

Lemma map_items_total {V W} (f : string -> V -> option W) (Q : W -> Prop)
    (d : dict V) :
  Forall (fun v => forall k, exists w, f k v = Some w /\ Q w) (values d) ->
  exists d', map_items f d = Some d' /\ keys d' = keys d /\
             Forall Q (values d').
Proof.
  induction d as [|[k v] d IH]; intros H.
  - exists []. repeat split. constructor.
  - cbn [values map snd] in H. inversion H as [|? ? Hv Hd]; subst.
    destruct (Hv k) as (w & Hw & HQ).
    destruct (IH Hd) as (d' & E & Hk & HF).
    exists ((k, w) :: d'). unfold map_items in *. cbn [mapM fst snd].
    rewrite Hw. cbn [bind]. rewrite E. cbn [bind].
    repeat split; [simpl; now rewrite Hk | now constructor].
Qed.

Lemma ceil_div_nonneg (n d : Z) : 0 < d -> 0 <= n -> 0 <= ceil_div n d.
Proof. intros Hd Hn. pose proof (ceil_div_spec n d Hd). nia. Qed.

Lemma py_round_normal (s : bool) (lo hi : Z) (x : float) :
  normal s lo hi x ->
  exists z, py_round x = Some z /\ (s = false -> 0 <= z).
Proof.
  intros (m & e & -> & Hm & He). unfold py_round. eexists.
  split; [reflexivity|]. intros ->.
  destruct (Z.leb_spec 0 e).
  - apply Z.mul_nonneg_nonneg; [lia | apply Z.pow_nonneg; lia].
  - apply round_half_even_div_nonneg; [apply Z.pow_pos_nonneg; lia | lia].
Qed.

Lemma py_ceil_normal (s : bool) (lo hi : Z) (x : float) :
  normal s lo hi x ->
  exists z, py_ceil x = Some z /\ (s = false -> 0 <= z).
Proof.
  intros (m & e & -> & Hm & He). unfold py_ceil. eexists.
  split; [reflexivity|]. intros ->.
  destruct (Z.leb_spec 0 e).
  - apply Z.mul_nonneg_nonneg; [lia | apply Z.pow_nonneg; lia].
  - apply (ceil_div_nonneg (Z.pos m)); [apply Z.pow_pos_nonneg; lia | lia].
Qed.

Lemma float_div_int_5_normal (s : bool) (lo hi : Z) (x : float) :
  normal s lo hi x -> -1071 <= lo -> hi <= 971 ->
  exists q, float_div_int x 5 = Some q /\ normal s (lo - 3) (hi - 1) q.
Proof.
  intros (m & e & -> & Hm & He) Hlo Hhi.
  unfold float_div_int. cbn [Z.eqb]. rewrite of_int_5. cbn [bind].
  assert (He' : -1071 <= e <= 971) by lia.
  destruct (fdiv_5_normal s m e Hm He') as (a & m' & e' & Ha & -> & Hm' & H & _).
  eexists. split; [reflexivity|]. exists m', e'. repeat split; lia.
Qed.

Lemma round_to_nearest_5_total (s : bool) (x : float) :
  normal s (-56) 971 x ->
  exists v, round_to_nearest_5 x = Some v /\ (s = false -> 0 <= v).
Proof.
  intros Hx. unfold round_to_nearest_5.
  destruct (float_div_int_5_normal s _ _ x Hx) as (q & -> & Hq); try lia.
  cbn [bind].
  destruct (py_round_normal s _ _ q Hq) as (z & -> & Hz).
  cbn [bind]. eexists. split; [reflexivity|]. intros E. specialize (Hz E). lia.
Qed.

Lemma round_up_to_5_total (s : bool) (x : float) :
  normal s (-56) 971 x ->
  exists v, round_up_to_5 x = Some v /\ (s = false -> 0 <= v).
Proof.
  intros Hx. unfold round_up_to_5.
  destruct (float_div_int_5_normal s _ _ x Hx) as (q & -> & Hq); try lia.
  cbn [bind].
  destruct (py_ceil_normal s _ _ q Hq) as (z & -> & Hz).
  cbn [bind]. eexists. split; [reflexivity|]. intros E. specialize (Hz E). lia.
Qed.

Lemma int_mul_float_normal (T hi : Z) (m : positive) (e : Z) (share : float) :
  of_int T = Some (S754_finite (T <? 0) m e) ->
  2 ^ 52 <= Z.pos m < 2 ^ 53 -> -52 <= e <= hi -> hi <= 971 ->
  normal false (-56) (-54) share ->
  exists x, int_mul_float T share = Some x /\ normal (T <? 0) (-56) hi x.
Proof.
  intros HT Hm He Hhi (my & ey & -> & Hmy & Hey).
  unfold int_mul_float. rewrite HT. cbn [bind].
  destruct (fmul_normal (T <? 0) m my e ey Hm Hmy)
    as (m' & e' & -> & Hm' & He' & _); try lia.
  eexists. split; [reflexivity|]. exists m', e'. repeat split; lia.
Qed.

Lemma shares_normal (rt : bool) :
  exists dp, distribution_percent rt = Some dp /\ keys dp = facings rt /\
             Forall (normal false (-56) (-54)) (values dp).
Proof.
  destruct rt.
  - rewrite distribution_percent_true. eexists. split; [reflexivity|].
    split; [reflexivity|].
    repeat constructor; do 2 eexists; (split; [reflexivity|]); lia.
  - rewrite distribution_percent_false. eexists. split; [reflexivity|].
    split; [reflexivity|].
    repeat constructor; do 2 eexists; (split; [reflexivity|]); lia.
Qed.

Lemma raw_shares_normal (T hi : Z) (rt : bool) (m : positive) (e : Z) :
  of_int T = Some (S754_finite (T <? 0) m e) ->
  2 ^ 52 <= Z.pos m < 2 ^ 53 -> -52 <= e <= hi -> hi <= 971 ->
  exists raw, raw_shares T rt = Some raw /\ keys raw = facings rt /\
              Forall (normal (T <? 0) (-56) hi) (values raw).
Proof.
  intros HT Hm He Hhi. unfold raw_shares, raw_allocations.
  destruct (shares_normal rt) as (dp & -> & Hk & Hn). cbn [bind].
  rewrite <- Hk. apply map_values_total.
  eapply Forall_impl; [|exact Hn]. intros share Hs.
  eapply int_mul_float_normal; eassumption.
Qed.

Lemma rounding_total (T : Z) (rt : bool) :
  T <> 0 -> Z.abs T < int_float_bound ->
  exists ad ra,
    default_rounding T rt = Some ad /\ keys ad = facings rt /\
    coarse_rounding T rt = Some ra /\ keys ra = facings rt /\
    (0 < T -> Forall (fun v => 0 <= v) (values ad) /\
              Forall (fun v => 0 <= v) (values ra)).
Proof.
  intros H0 Hb. destruct (of_int_normal T H0 Hb) as (m & e & HT & Hm & He & _ & _).
  destruct (raw_shares_normal T 971 rt m e HT Hm He (Z.le_refl _))
    as (raw & Hraw & Hk & Hn).
  unfold raw_shares in Hraw. apply bind_Some in Hraw as (dp & Hdp & Hraw).
  unfold default_rounding, coarse_rounding. rewrite Hdp. cbn [bind].
  rewrite Hraw. cbn [bind].
  destruct (map_values_total py_round (fun z => (T <? 0) = false -> 0 <= z) raw)
    as (ad & Had & Hkad & Hvad).
  { eapply Forall_impl; [|exact Hn]. intros x Hx.
    exact (py_round_normal _ _ _ x Hx). }
  destruct (map_items_total
              (fun loc points =>
                 if String.eqb loc "Front" then round_up_to_5 points
                 else round_to_nearest_5 points)
              (fun z => (T <? 0) = false -> 0 <= z) raw)
    as (ra & Hra & Hkra & Hvra).
  { eapply Forall_impl; [|exact Hn]. intros x Hx k.
    destruct (String.eqb k "Front").
    - exact (round_up_to_5_total _ x Hx).
    - exact (round_to_nearest_5_total _ x Hx). }
  exists ad, ra. unfold basic_rounding, rounded_allocations.
  split; [exact Had|]. split; [congruence|]. split; [exact Hra|].
  split; [congruence|]. intros Hpos.
  assert (E : (T <? 0) = false) by (apply Z.ltb_ge; lia).
  split; (eapply Forall_impl; [|eassumption]); simpl; auto.
Qed.

Ltac nonneg_values :=
  cbn [values map snd] in *;
  repeat match goal with
         | H : Forall _ (_ :: _) |- _ => inversion H; subst; clear H
         end;
  repeat constructor; lia.

Lemma distribute_leftover_total (rt : bool) (ad : dict Z) (n : Z) :
  keys ad = facings rt ->
  exists d,
    distribute_leftover (facings rt) ad n = Some d /\
    (Forall (fun v => 0 <= v) (values ad) -> Forall (fun v => 0 <= v) (values d)).
Proof.
  intros Hk. destruct rt; facing_shape Hk;
    cbn [facings distribute_leftover get set String.eqb Ascii.eqb Bool.eqb bind];
    repeat match goal with
           | |- context [if ?x =? 0 then _ else _] => destruct (Z.eqb_spec x 0)
           end;
    (eexists; split; [reflexivity|]; intros HF; nonneg_values).
Qed.

Lemma reconcile_total (T : Z) (rt : bool) (ra : dict Z) :
  keys ra = facings rt ->
  exists d,
    reconcile T ra = Some d /\
    (Forall (fun v => 0 <= v) (values ra) -> Forall (fun v => 0 <= v) (values d)).
Proof.
  intros Hk. destruct rt; facing_shape Hk; unfold_reconcile;
    repeat match goal with
           | |- context [if ?x >? ?y then _ else _] => destruct (Z.gtb_spec x y)
           | |- context [if ?x >=? ?y then _ else _] => destruct (Z.geb_spec x y)
           | |- context [if ?x <? ?y then _ else _] => destruct (Z.ltb_spec x y)
           end;
    (eexists; split; [reflexivity|]; intros HF; nonneg_values).
Qed.

Lemma calculate_total (T : Z) (re rt : bool) :
  Z.abs T < int_float_bound ->
  exists d,
    calculate_armour_distribution T re rt = Some d /\
    keys d = facings rt /\
    (0 <= T -> Forall (fun v => 0 <= v) (values d)).
Proof.
  intros Hb.
  assert (Hex : exists d, calculate_armour_distribution T re rt = Some d /\
                  (0 <= T -> Forall (fun v => 0 <= v) (values d))).
  { destruct (Z.eq_dec T 0) as [->|H0].
    - destruct re, rt; eexists; (split; [vm_compute; reflexivity|]);
        intros _; cbn [values map snd];
        repeat (apply Forall_cons; [lia|]); apply Forall_nil.
    - destruct (rounding_total T rt H0 Hb)
        as (ad & ra & Had & Hkad & Hra & Hkra & Hpos).
      destruct re.
      + rewrite coarse_run, Hra. cbn [bind].
        destruct (reconcile_total T rt ra Hkra) as (d & -> & HF).
        exists d. split; [reflexivity|]. intros HT. apply HF, Hpos. lia.
      + rewrite default_run, Had. cbn [bind].
        destruct (T - sum (values ad) >? 0).
        * destruct (distribute_leftover_total rt ad (T - sum (values ad)) Hkad)
            as (d & -> & HF).
          exists d. split; [reflexivity|]. intros HT. apply HF, Hpos. lia.
        * exists ad. split; [reflexivity|]. intros HT. apply Hpos. lia. }
  destruct Hex as (d & Hd & HF). exists d. split; [exact Hd|].
  split; [exact (calculate_keys _ _ _ _ Hd) | exact HF].
Qed.

(** ** Output guarantee and negative totals *)

(** C7 as stated fails: [2 ^ 1024] is a non-negative [int], but it does not
    convert to a [float], so [total_armour_points * pct] raises
    [OverflowError] and nothing is returned. *)
Lemma output_guarantee_counterexample :
  0 <= 2 ^ 1024 /\
  calculate_armour_distribution (2 ^ 1024) false false = None /\
  calculate_armour_distribution (2 ^ 1024) true false = None /\
  calculate_armour_distribution (2 ^ 1024) false true = None /\
  calculate_armour_distribution (2 ^ 1024) true true = None.
Proof.
  split; [discriminate|]. repeat split; vm_compute; reflexivity.
Qed.

(** The bound of the conversion is sharp. *)
Lemma int_float_bound_sharp :
  of_int int_float_bound = None /\
  of_int (int_float_bound - 1) =
    Some (S754_finite false (2 ^ 53 - 1) 971).
Proof. split; vm_compute; reflexivity. Qed.

(** From the bound on, in either direction, no [int] converts: the
    nearest double would be beyond the largest finite one. *)
Lemma binary_round_int_overflow (s : bool) (mx : positive) :
  2 ^ 1024 - 2 ^ 970 <= Z.pos mx ->
  binary_round prec emax s mx 0 = S754_infinity s.
Proof.
  intros Hb. unfold binary_round.
  set (d := Z.pos (digits2_pos mx)).
  assert (Hd : Zdigits2 (Z.pos mx) = d) by reflexivity.
  pose proof (Zdigits2_bounds _ _ (Pos2Z.is_pos mx) Hd) as Hdb.
  assert (Hd1 : 1024 <= d).
  { destruct (Z_le_gt_dec 1024 d) as [|Hlt]; [assumption|exfalso].
    assert (2 ^ d <= 2 ^ 1023) by (apply Z.pow_le_mono_r; lia).
    assert (2 ^ 1023 < 2 ^ 1024 - 2 ^ 970) by reflexivity. lia. }
  rewrite fexp_normal by lia. unfold shl_align.
  replace (d + 0 - 53 - 0) with (d - 53) by lia.
  assert (I : inbetween (Z.pos mx) 1 (Z.pos mx) loc_Exact) by (simpl; lia).
  destruct (d - 53) as [|q|q] eqn:Eq; [lia| |lia].
  assert (Hd' : Zdigits2 (Z.pos mx) = 53 + Z.pos q) by lia.
  destruct (binary_round_aux_normal s (Z.pos mx) 0 (Z.pos q) (Z.pos mx) 1
              loc_Exact Z.lt_0_1 (Pos2Z.is_pos mx) I Hd' (Pos2Z.is_nonneg q))
    as [B1 B2]; [lia|].
  rewrite B2. rewrite !Z.add_0_l, Z.mul_1_l in *.
  set (m1 := round_half_even_div (Z.pos mx) (2 ^ Z.pos q)) in *.
  destruct (Z.ltb_spec m1 (2 ^ 53)) as [Hlt|Hge].
  - (* 1024 binary digits: the mantissa rounds up to [2 ^ 53] *)
    destruct (Z.leb_spec (Z.pos q) 971) as [Hq|Hq]; [exfalso|reflexivity].
    assert (Eq' : Z.pos q = 971) by lia.
    assert (HD : 0 < 2 ^ Z.pos q) by (apply Z.pow_pos_nonneg; lia).
    destruct (round_half_even_div_spec (Z.pos mx) (2 ^ Z.pos q) HD)
      as (Hr & Hu & _).
    fold m1 in Hr, Hu. rewrite Eq' in *.
    assert (E970 : 2 ^ 1024 - 2 ^ 970 = (2 ^ 54 - 1) * 2 ^ 970) by reflexivity.
    assert (E971 : 2 ^ 971 = 2 * 2 ^ 970) by reflexivity.
    assert (P970 : 0 < 2 ^ 970) by reflexivity.
    rewrite E970 in Hb. rewrite E971 in Hr, Hu.
    set (P := 2 ^ 970) in *. clearbody P.
    change (2 ^ 53) with 9007199254740992 in *.
    change (2 ^ 54 - 1) with 18014398509481983 in *.
    assert (Hm : m1 = 9007199254740991) by nia.
    assert (Heq : 2 * Z.pos mx = (2 * m1 + 1) * (2 * P)) by nia.
    specialize (Hu Heq). rewrite Hm in Hu. discriminate Hu.
  - destruct (Z.leb_spec (Z.pos q + 1) 971); [lia | reflexivity].
Qed.

Lemma of_int_overflow (T : Z) :
  int_float_bound <= Z.abs T -> of_int T = None.
Proof.
  intros Hb. unfold int_float_bound in Hb. unfold of_int, binary_normalize.
  destruct T as [|p|p].
  - exfalso. revert Hb. change (Z.abs 0) with 0.
    assert (0 < 2 ^ 1024 - 2 ^ 970) by reflexivity. lia.
  - rewrite (binary_round_int_overflow false p) by (simpl in Hb; lia).
    reflexivity.
  - rewrite (binary_round_int_overflow true p) by (simpl in Hb; lia).
    reflexivity.
Qed.

(** The first product [total_armour_points * pct] converts the total, so
    a total that does not convert ends the call. *)
Lemma calculate_overflow (T : Z) (re rt : bool) :
  of_int T = None -> calculate_armour_distribution T re rt = None.
Proof.
  intros H. unfold calculate_armour_distribution.
  destruct (shares_normal rt) as (dp & -> & Hk & _). cbn [bind].
  destruct dp as [|[k x] dp]; [destruct rt; discriminate Hk|].
  unfold raw_allocations, map_values. cbn [mapM fst snd].
  unfold int_mul_float at 1. rewrite H. reflexivity.
Qed.

(** C7, amended. For every total from 0 up to the largest [int] that
    converts to a [float] (below [2 ^ 1024 - 2 ^ 970]) and every
    combination of the flags, a mapping is returned whose keys are exactly
    the surviving facings, in order, and every value is a non-negative
    integer; for every larger total the conversion raises [OverflowError]
    and nothing is returned. *)
Theorem output_guarantee (T : Z) (re rt : bool) :
  0 <= T ->
  (T < int_float_bound ->
   exists d,
     calculate_armour_distribution T re rt = Some d /\
     keys d = facings rt /\
     Forall (fun v => 0 <= v) (values d)) /\
  (int_float_bound <= T ->
   calculate_armour_distribution T re rt = None).
Proof.
  intros H0. split.
  - intros HT.
    destruct (calculate_total T re rt) as (d & Hd & Hk & HF); [lia|].
    exists d. split; [exact Hd|]. split; [exact Hk|]. apply HF. lia.
  - intros HT. apply calculate_overflow, of_int_overflow.
    rewrite Z.abs_eq by exact H0. exact HT.
Qed.

Lemma output_guarantee_witness :
  exists d,
    calculate_armour_distribution 480 true true = Some d /\
    keys d = facings true /\
    Forall (fun v => 0 <= v) (values d).
Proof.
  destruct (output_guarantee 480 true true) as [H _]; [discriminate|].
  apply H. reflexivity.
Defined.

(** C10 as stated fails: [- 2 ^ 1024] is a negative [int] on which the
    conversion to [float] raises [OverflowError]. *)
Lemma negative_total_counterexample :
  - 2 ^ 1024 < 0 /\
  calculate_armour_distribution (- 2 ^ 1024) false false = None /\
  calculate_armour_distribution (- 2 ^ 1024) true false = None /\
  calculate_armour_distribution (- 2 ^ 1024) false true = None /\
  calculate_armour_distribution (- 2 ^ 1024) true true = None.
Proof.
  split; [reflexivity|]. repeat split; vm_compute; reflexivity.
Qed.

(** C10, amended. For every negative total above [- (2 ^ 1024 - 2 ^ 970)]
    and every combination of the flags no error is raised and a mapping
    over the surviving facings is returned; nothing checks the sign, and
    in the default policy the values can be negative, as at -10.  For
    every total from [- (2 ^ 1024 - 2 ^ 970)] downwards the conversion to
    [float] raises [OverflowError]. *)
Theorem negative_total_accepted :
  (forall (T : Z) (re rt : bool),
      - int_float_bound < T < 0 ->
      exists d,
        calculate_armour_distribution T re rt = Some d /\
        keys d = facings rt) /\
  (forall (T : Z) (re rt : bool),
      T <= - int_float_bound ->
      of_int T = None /\ calculate_armour_distribution T re rt = None) /\
  calculate_armour_distribution (-10) false false =
    Some [("Front", -3); ("Left Side", -2); ("Right Side", -2);
          ("Rear", -1); ("Turret", -2)].
Proof.
  split; [|split; [|vm_compute; reflexivity]].
  - intros T re rt HT.
    destruct (calculate_total T re rt) as (d & Hd & Hk & _); [lia|].
    exists d. split; assumption.
  - intros T re rt HT.
    assert (H : of_int T = None).
    { apply of_int_overflow.
      assert (0 < int_float_bound) by reflexivity. lia. }
    split; [exact H | exact (calculate_overflow T re rt H)].
Qed.

Lemma negative_total_accepted_witness :
  exists d,
    calculate_armour_distribution (-10) true false = Some d /\
    keys d = facings false.
Proof.
  apply (proj1 negative_total_accepted (-10) true false).
  split; reflexivity.
Defined.

(** ** Turret removal, in full *)

(** C6. With [remove_turret] the result never has a Turret key, whatever
    the total and [round_each] (and there is a result whenever the total
    converts to a [float]); the four shares used, each its base share plus
    [turret_share / 4], add up to 1.0, both as Python adds them and as
    exact rationals. *)
Theorem turret_removal_redistributes_fully (T : Z) (re : bool) :
  (forall d, calculate_armour_distribution T re true = Some d ->
             get "Turret" d = None /\ ~ In "Turret" (keys d)) /\
  (Z.abs T < int_float_bound ->
   exists d, calculate_armour_distribution T re true = Some d) /\
  exists dp turret_share inc,
    distribution_percent true = Some dp /\
    keys dp = ["Front"; "Left Side"; "Right Side"; "Rear"] /\
    get "Turret" base_distribution = Some turret_share /\
    float_div_int turret_share 4 = Some inc /\
    (forall k s, get k dp = Some s ->
       exists b, get k base_distribution = Some b /\ s = fadd b inc) /\
    fsum (values dp) = S754_finite false (2 ^ 52) (-52) /\
    (F2Q (fsum (values dp)) == 1)%Q /\
    (Qsum (map F2Q (values dp)) == 1)%Q.
Proof.
  split; [|split].
  - intros d H. apply calculate_keys in H.
    assert (Hn : ~ In "Turret" (keys d)).
    { rewrite H. simpl. intuition discriminate. }
    split; [now apply get_None_keys | exact Hn].
  - intros Hb. destruct (calculate_total T re true Hb) as (d & Hd & _).
    now exists d.
  - rewrite distribution_percent_true.
    eexists. exists (S754_finite false 6016809102166983 (-55)).
    exists (S754_finite false 6016809102166983 (-57)).
    split; [reflexivity|]. split; [reflexivity|].
    split; [vm_compute; reflexivity|]. split; [vm_compute; reflexivity|].
    split.
    + intros k s. simpl.
      repeat match goal with
             | |- context [String.eqb k ?x] => destruct (String.eqb_spec k x)
             end; try discriminate;
        intros E; injection E as <-; subst k; eexists;
        (split; [vm_compute; reflexivity | vm_compute; reflexivity]).
    + split; [|split]; vm_compute; reflexivity.
Qed.

Lemma turret_removal_redistributes_fully_witness :
  get "Turret" [("Front", 34); ("Left Side", 25); ("Right Side", 25);
                ("Rear", 16)] = @None Z /\
  exists d, calculate_armour_distribution 100 false true = Some d.
Proof.
  destruct (turret_removal_redistributes_fully 100 false) as (Hs & Ht & _).
  split.
  - apply (Hs [("Front", 34); ("Left Side", 25); ("Right Side", 25);
               ("Rear", 16)]).
    vm_compute. reflexivity.
  - apply Ht. reflexivity.
Defined.

(** ** Coarse policy: what the roundings are *)

Lemma F2Q_normal (m : positive) (e : Z) :
  e < 0 -> F2Q (S754_finite false m e) = Z.pos m # Z.to_pos (2 ^ (- e)).
Proof.
  intros He. unfold F2Q. destruct (Z.leb_spec 0 e); [lia | reflexivity].
Qed.

Lemma round_up_to_5_exact (x : float) :
  normal false (-56) (-1) x ->
  exists v,
    round_up_to_5 x = Some v /\ (5 | v) /\
    (F2Q x <= inject_Z v)%Q /\ (inject_Z v < F2Q x + 5)%Q.
Proof.
  intros (m & e & -> & Hm & He).
  destruct (quotient_5_rounding m e Hm ltac:(lia)) as (q & Hq & Hc & _).
  unfold round_up_to_5. rewrite Hq. cbn [bind]. rewrite Hc. cbn [bind].
  eexists. split; [reflexivity|].
  assert (HK : 0 < 2 ^ (- e)) by (apply Z.pow_pos_nonneg; lia).
  assert (H5K : 0 < 5 * 2 ^ (- e)) by lia.
  pose proof (ceil_div_spec (Z.pos m) (5 * 2 ^ (- e)) H5K) as Hs.
  set (c := ceil_div (Z.pos m) (5 * 2 ^ (- e))) in *. clearbody c.
  split; [exists c; lia|].
  rewrite F2Q_normal by lia.
  unfold Qle, Qlt, Qplus, inject_Z. cbn [Qnum Qden].
  rewrite Z2Pos.id by exact HK. split; nia.
Qed.

Lemma round_to_nearest_5_exact (x : float) :
  normal false (-56) (-1) x ->
  exists v,
    round_to_nearest_5 x = Some v /\ (5 | v) /\
    (Qabs (F2Q x - inject_Z v) <= 5 # 2)%Q.
Proof.
  intros (m & e & -> & Hm & He).
  destruct (quotient_5_rounding m e Hm ltac:(lia)) as (q & Hq & _ & Hr).
  unfold round_to_nearest_5. rewrite Hq. cbn [bind]. rewrite Hr. cbn [bind].
  eexists. split; [reflexivity|].
  assert (HK : 0 < 2 ^ (- e)) by (apply Z.pow_pos_nonneg; lia).
  assert (H5K : 0 < 5 * 2 ^ (- e)) by lia.
  destruct (round_half_even_div_spec (Z.pos m) (5 * 2 ^ (- e)) H5K)
    as (Hs & _ & _).
  set (r := round_half_even_div (Z.pos m) (5 * 2 ^ (- e))) in *. clearbody r.
  split; [exists r; lia|].
  rewrite F2Q_normal by lia.
  apply Qabs_Qle_condition.
  unfold Qle, Qminus, Qplus, Qopp, inject_Z. cbn [Qnum Qden].
  rewrite Z2Pos.id by exact HK. split; nia.
Qed.

Lemma coarse_rounding_raw (T : Z) (rt : bool) :
  coarse_rounding T rt = (raw <- raw_shares T rt ;; rounded_allocations raw).
Proof.
  unfold coarse_rounding, raw_shares.
  destruct (distribution_percent rt); reflexivity.
Qed.

Lemma reconcile_front (T : Z) (rt : bool) (ra d : dict Z) (vf : Z) :
  keys ra = facings rt -> get "Front" ra = Some vf ->
  reconcile T ra = Some d ->
  get "Front" d = Some (vf + Z.max 0 (T - sum (values ra))).
Proof.
  intros Hk Hf H. destruct rt; facing_shape Hk;
    cbn [get String.eqb Ascii.eqb Bool.eqb] in Hf; injection Hf as ->;
    unfold_reconcile_in H; cbn [values map snd]; repeat rewrite sum_cons;
    rewrite sum_nil;
    repeat match type of H with
           | context [if ?x >? ?y then _ else _] => destruct (Z.gtb_spec x y)
           | context [if ?x >=? ?y then _ else _] => destruct (Z.geb_spec x y)
           | context [if ?x <? ?y then _ else _] => destruct (Z.ltb_spec x y)
           end;
    injection H as <-; cbn [get String.eqb Ascii.eqb Bool.eqb];
    f_equal; lia.
Qed.

(** C4 as stated fails: with 101 points Front's raw share is about 30.3,
    not a multiple of 5; its rounding is 35, the roundings add up to 100,
    and the shortfall of 1 is added to Front, which ends at 36. *)
Lemma front_rounds_up_counterexample :
  exists raw x d,
    raw_shares 101 false = Some raw /\ get "Front" raw = Some x /\
    (30 < F2Q x)%Q /\ (F2Q x < 35)%Q /\
    calculate_armour_distribution 101 true false = Some d /\
    get "Front" d = Some 36 /\ 36 <> 35 /\ ~ (5 | 36).
Proof.
  do 3 eexists. split; [vm_compute; reflexivity|].
  split; [reflexivity|]. split; [reflexivity|]. split; [reflexivity|].
  split; [vm_compute; reflexivity|]. split; [reflexivity|].
  split; [discriminate|]. intros [z Hz]. lia.
Qed.

(** Beyond the range where the quotient by 5 keeps a fractional bit,
    [round_up_to_5] can round down: here the raw share is
    12000000000000006 and its rounding 12000000000000005. *)
Lemma round_up_to_5_large :
  exists raw x,
    raw_shares 40000000000000021 false = Some raw /\
    get "Front" raw = Some x /\
    (F2Q x == 12000000000000006 # 1)%Q /\
    round_up_to_5 x = Some 12000000000000005.
Proof.
  do 2 eexists. split; [vm_compute; reflexivity|].
  split; [reflexivity|]. split; vm_compute; reflexivity.
Qed.

Ltac exact_roundings :=
  repeat match goal with
         | H : Forall _ (_ :: _) |- _ => inversion H; subst; clear H
         | H : Forall _ [] |- _ => clear H
         end.

(** C4, amended. Coarse policy, total from 0 to below [2 ^ 52]: before the
    total is reconciled, Front's rounding is the least multiple of 5 that
    is at least its raw share, and every other surviving facing's rounding
    is a multiple of 5 within 2.5 of its raw share (a nearest one);
    Front's final allocation is its rounding plus the shortfall, if any,
    so it is at least the raw share. *)
Theorem front_rounds_up (T : Z) (rt : bool) :
  0 <= T < 2 ^ 52 ->
  exists raw ra d xf vf,
    raw_shares T rt = Some raw /\
    coarse_rounding T rt = Some ra /\
    calculate_armour_distribution T true rt = Some d /\
    get "Front" raw = Some xf /\ get "Front" ra = Some vf /\
    (5 | vf) /\ (F2Q xf <= inject_Z vf)%Q /\ (inject_Z vf < F2Q xf + 5)%Q /\
    get "Front" d = Some (vf + Z.max 0 (T - sum (values ra))) /\
    (forall k x v,
        k <> "Front" -> get k raw = Some x -> get k ra = Some v ->
        (5 | v) /\ (Qabs (F2Q x - inject_Z v) <= 5 # 2)%Q).
Proof.
  intros HT.
  assert (Hpre : exists raw ra xf vf,
             raw_shares T rt = Some raw /\ rounded_allocations raw = Some ra /\
             keys ra = facings rt /\
             get "Front" raw = Some xf /\ get "Front" ra = Some vf /\
             (5 | vf) /\ (F2Q xf <= inject_Z vf)%Q /\
             (inject_Z vf < F2Q xf + 5)%Q /\
             (forall k x v,
                 k <> "Front" -> get k raw = Some x -> get k ra = Some v ->
                 (5 | v) /\ (Qabs (F2Q x - inject_Z v) <= 5 # 2)%Q)).
  { destruct (Z.eq_dec T 0) as [->|H0].
    - destruct rt; do 4 eexists;
        (split; [vm_compute; reflexivity|]);
        (split; [vm_compute; reflexivity|]);
        (split; [reflexivity|]); (split; [reflexivity|]);
        (split; [reflexivity|]); (split; [exists 0; reflexivity|]);
        (split; [vm_compute; discriminate|]);
        (split; [vm_compute; reflexivity|]);
        intros k ? ? Hne; simpl;
        repeat match goal with
               | |- context [String.eqb k ?s] => destruct (String.eqb_spec k s)
               end; try congruence; try discriminate;
        intros Hx Hv; injection Hx as <-; injection Hv as <-;
        (split; [exists 0; reflexivity | vm_compute; discriminate]).
    - assert (Hb : Z.abs T < 2 ^ 1024 - 2 ^ 970) by lia.
      destruct (of_int_normal T H0 Hb) as (m & e & HTf & Hm & He & Hsmall & _).
      assert (He1 : -52 <= e <= -1) by lia.
      destruct (raw_shares_normal T (-1) rt m e HTf Hm He1 ltac:(lia))
        as (raw & Hraw & Hk & Hn).
      replace (T <? 0) with false in Hn by (symmetry; apply Z.ltb_ge; lia).
      exists raw. rewrite Hraw.
      destruct rt; facing_shape Hk; cbn [values map snd] in Hn;
        exact_roundings;
        repeat match goal with
               | H : normal false (-56) (-1) ?x |- _ =>
                   let v := fresh "v" in
                   let Hu := fresh "Hu" in let Hr := fresh "Hr" in
                   pose proof (round_up_to_5_exact x H) as (v & Hu & ?);
                   pose proof (round_to_nearest_5_exact x H) as (? & Hr & ?);
                   clear H
               end;
        unfold rounded_allocations, map_items;
        cbn [mapM fst snd String.eqb Ascii.eqb Bool.eqb bind];
        repeat match goal with
               | H : round_up_to_5 _ = Some _ |- _ =>
                   try rewrite H; clear H
               | H : round_to_nearest_5 _ = Some _ |- _ =>
                   try rewrite H; clear H
               end;
        cbn [bind];
        do 3 eexists; (split; [reflexivity|]); (split; [reflexivity|]);
        (split; [reflexivity|]); (split; [reflexivity|]);
        (split; [reflexivity|]);
        repeat match goal with H : _ /\ _ |- _ => destruct H end;
        (split; [assumption|]); (split; [assumption|]);
        (split; [assumption|]);
        intros k ? ? Hne; simpl;
        repeat match goal with
               | |- context [String.eqb k ?s] => destruct (String.eqb_spec k s)
               end; try congruence; try discriminate;
        intros Hx Hv; injection Hx as <-; injection Hv as <-;
        (split; assumption). }
  destruct Hpre as (raw & ra & xf & vf & Hraw & Hra & Hk & Hxf & Hvf & Hrest).
  assert (Hcr : coarse_rounding T rt = Some ra).
  { rewrite coarse_rounding_raw, Hraw. exact Hra. }
  destruct (reconcile_total T rt ra Hk) as (d & Hd & _).
  exists raw, ra, d, xf, vf.
  split; [exact Hraw|]. split; [exact Hcr|].
  split; [rewrite coarse_run, Hcr; exact Hd|].
  split; [exact Hxf|]. split; [exact Hvf|].
  destruct Hrest as (H5 & Hle & Hlt & Hoth).
  split; [exact H5|]. split; [exact Hle|]. split; [exact Hlt|].
  split; [exact (reconcile_front T rt ra d vf Hk Hvf Hd) | exact Hoth].
Qed.

Lemma front_rounds_up_witness :
  exists raw ra d xf vf,
    raw_shares 480 false = Some raw /\
    coarse_rounding 480 false = Some ra /\
    calculate_armour_distribution 480 true false = Some d /\
    get "Front" raw = Some xf /\ get "Front" ra = Some vf /\
    (5 | vf) /\ (F2Q xf <= inject_Z vf)%Q /\ (inject_Z vf < F2Q xf + 5)%Q.
Proof.
  destruct (front_rounds_up 480 false)
    as (raw & ra & d & xf & vf & H1 & H2 & H3 & H4 & H5 & H6 & H7 & H8 & _).
  - split; [discriminate | reflexivity].
  - exists raw, ra, d, xf, vf. repeat split; assumption.
Defined.

(** ** Default policy: the shortfall *)

Lemma py_round_lower (lo : Z) (x : float) :
  normal false lo (-1) x ->
  exists r, py_round x = Some r /\ (F2Q x - (1 # 2) <= inject_Z r)%Q.
Proof.
  intros (m & e & -> & Hm & He). unfold py_round.
  destruct (Z.leb_spec 0 e); [lia|]. eexists. split; [reflexivity|].
  assert (HP : 0 < 2 ^ (- e)) by (apply Z.pow_pos_nonneg; lia).
  destruct (round_half_even_div_spec (Z.pos m) (2 ^ (- e)) HP) as (Hs & _ & _).
  set (r := round_half_even_div (Z.pos m) (2 ^ (- e))) in *. clearbody r.
  rewrite F2Q_normal by lia.
  unfold Qle, Qminus, Qplus, Qopp, inject_Z. cbn [Qnum Qden].
  rewrite Pos2Z.inj_mul, Z2Pos.id by exact HP. lia.
Qed.

Lemma int_mul_float_lower (T : Z) (share : float) :
  0 < T < 2 ^ 52 -> normal false (-56) (-54) share ->
  exists x,
    int_mul_float T share = Some x /\ normal false (-56) (-1) x /\
    (inject_Z T * F2Q share * (9007199254740991 # 9007199254740992)
       <= F2Q x)%Q.
Proof.
  intros HT (my & ey & -> & Hmy & Hey).
  destruct (of_int_normal T) as (m & e & HTf & Hm & He & Hneg & Hex); try lia.
  replace (T <? 0) with false in HTf by (symmetry; apply Z.ltb_ge; lia).
  rewrite Z.abs_eq in Hneg, Hex by lia.
  specialize (Hneg ltac:(lia)). specialize (Hex ltac:(lia)).
  unfold int_mul_float. rewrite HTf. cbn [bind].
  destruct (fmul_normal false m my e ey Hm Hmy) as (m' & e' & -> & Hm' & He' & Hv);
    try lia.
  eexists. split; [reflexivity|]. split.
  { exists m', e'. repeat split; lia. }
  rewrite !F2Q_normal by lia.
  assert (HA : 0 < 2 ^ (- e)) by (apply Z.pow_pos_nonneg; lia).
  assert (HB : 0 < 2 ^ (- ey)) by (apply Z.pow_pos_nonneg; lia).
  assert (HC : 0 < 2 ^ (- e')) by (apply Z.pow_pos_nonneg; lia).
  assert (HEC : 2 ^ (e' - (e + ey)) * 2 ^ (- e') = 2 ^ (- e) * 2 ^ (- ey)).
  { rewrite <- !Z.pow_add_r by lia. f_equal. lia. }
  unfold Qle, Qmult, inject_Z. cbn [Qnum Qden].
  rewrite !Pos2Z.inj_mul, !Z2Pos.id by assumption.
  set (A := 2 ^ (- e)) in *. set (B := 2 ^ (- ey)) in *.
  set (C := 2 ^ (- e')) in *. set (E := 2 ^ (e' - (e + ey))) in *.
  change (2 ^ 53) with 9007199254740992 in Hv.
  change (2 ^ 53 - 1) with 9007199254740991 in Hv.
  clearbody A B C E.
  apply (Z.mul_le_mono_pos_l _ _ A HA).
  replace (A * (T * Z.pos my * 9007199254740991 * C))
    with (9007199254740991 * (T * A * Z.pos my) * C) by ring.
  replace (A * (Z.pos m' * (Z.pos 1 * B * 9007199254740992)))
    with (9007199254740992 * (Z.pos m' * (A * B))) by ring.
  rewrite <- HEC, <- Hex.
  replace (9007199254740992 * (Z.pos m' * (E * C)))
    with (9007199254740992 * (Z.pos m' * E) * C) by ring.
  apply Z.mul_le_mono_nonneg_r; lia.
Qed.

Ltac eval_shares :=
  repeat match goal with
         | H : context [F2Q (S754_finite ?s ?m ?e)] |- _ =>
             let q := eval vm_compute in (F2Q (S754_finite s m e)) in
             change (F2Q (S754_finite s m e)) with q in H
         end.

Ltac share_is_normal :=
  do 2 eexists; (split; [reflexivity|]); lia.

Lemma default_shortfall_small (T : Z) (rt : bool) (ad : dict Z) :
  0 <= T < 2 ^ 52 ->
  default_rounding T rt = Some ad ->
  T - sum (values ad) <= 3.
Proof.
  intros HT Had.
  destruct (Z.eq_dec T 0) as [->|H0].
  - destruct rt; vm_compute in Had; injection Had as <-; vm_compute;
      discriminate.
  - assert (HT' : 0 < T < 2 ^ 52) by lia.
    assert (HTq : (inject_Z T < 4503599627370496 # 1)%Q).
    { change (4503599627370496 # 1)%Q with (inject_Z (2 ^ 52)).
      rewrite <- Zlt_Qlt. lia. }
    assert (HTp : (0 < inject_Z T)%Q).
    { change 0%Q with (inject_Z 0). rewrite <- Zlt_Qlt. lia. }
    unfold default_rounding, raw_allocations, basic_rounding, map_values in Had.
    destruct rt;
      [rewrite distribution_percent_true in Had
      |rewrite distribution_percent_false in Had];
      cbn [bind mapM fst snd] in Had;
      repeat match type of Had with
             | context [int_mul_float T ?s] =>
                 let x := fresh "x" in
                 let E := fresh "E" in
                 let Hn := fresh "Hn" in
                 let Hv := fresh "Hv" in
                 destruct (int_mul_float_lower T s HT' ltac:(share_is_normal))
                   as (x & E & Hn & Hv);
                 rewrite E in Had; cbn [bind mapM fst snd] in Had
             end;
      repeat match type of Had with
             | context [py_round ?x] =>
                 match goal with
                 | Hn : normal false _ (-1) x |- _ =>
                     let r := fresh "r" in
                     let E := fresh "E" in
                     let Hr := fresh "Hr" in
                     destruct (py_round_lower _ x Hn) as (r & E & Hr);
                     rewrite E in Had; cbn [bind mapM fst snd] in Had
                 end
             end;
      injection Had as <-; cbn [values map snd]; repeat rewrite sum_cons;
      rewrite sum_nil; eval_shares;
      apply Z.lt_succ_r; rewrite Zlt_Qlt;
      unfold Z.sub; repeat (rewrite inject_Z_plus || rewrite inject_Z_opp);
      change (inject_Z 0) with 0%Q; change (inject_Z (Z.succ 3)) with 4%Q;
      lra.
Qed.

(** C5 as stated fails: at [2 ^ 60] points the roundings fall 16 short,
    the single pass over the five facings hands out 5 points, and the
    shortfall is not exhausted: 11 points stay unallocated. *)
Lemma default_shortfall_counterexample :
  exists ad d,
    default_rounding (2 ^ 60) false = Some ad /\
    2 ^ 60 - sum (values ad) = 16 /\
    calculate_armour_distribution (2 ^ 60) false false = Some d /\
    2 ^ 60 - sum (values d) = 11.
Proof.
  exists [("Front", 345876451382054080); ("Left Side", 239807672958224160);
          ("Right Side", 239807672958224160); ("Rear", 134891816039001104);
          ("Turret", 192537891269343456)],
         [("Front", 345876451382054081); ("Left Side", 239807672958224161);
          ("Right Side", 239807672958224161); ("Rear", 134891816039001105);
          ("Turret", 192537891269343457)].
  split; [|split; [|split]]; vm_compute; reflexivity.
Qed.

(** C5, amended. Default policy, roundings below the total: one pass over
    the surviving facings in the order Front, Left Side, Right Side, Rear,
    Turret adds 1 to each facing in turn and stops when the shortfall is
    exhausted or the facings are; so the first [min shortfall n] of the
    [n] facings gain exactly 1 and the others keep their rounding.  For a
    total from 0 to below [2 ^ 52] the shortfall is at most 3, so it is
    exhausted and the values returned add up to the total. *)
Theorem default_shortfall_distribution (T : Z) (rt : bool) (ad : dict Z) :
  default_rounding T rt = Some ad ->
  sum (values ad) < T ->
  exists d,
    calculate_armour_distribution T false rt = Some d /\
    keys d = facings rt /\
    (forall i k v,
        nth_error ad i = Some (k, v) ->
        nth_error d i =
          Some (k, if Z.of_nat i <? T - sum (values ad) then v + 1 else v)) /\
    sum (values d) =
      sum (values ad)
      + Z.min (T - sum (values ad)) (Z.of_nat (List.length (facings rt))) /\
    (0 <= T < 2 ^ 52 -> T - sum (values ad) <= 3 /\ sum (values d) = T).
Proof.
  intros Had Hlt.
  assert (Hsmall : 0 <= T < 2 ^ 52 -> T - sum (values ad) <= 3)
    by (intros HT; exact (default_shortfall_small T rt ad HT Had)).
  revert Hsmall. rewrite default_run, Had. cbn [bind].
  pose proof (default_rounding_keys _ _ _ Had) as Hk. clear Had.
  destruct (Z.gtb_spec (T - sum (values ad)) 0) as [_|]; [|lia].
  set (S := sum (values ad)) in *.
  assert (HS : S = sum (values ad)) by reflexivity.
  set (L := T - S) in *.
  assert (HL : 0 < L /\ L = T - S) by (unfold L; lia). clearbody L S.
  intros Hsmall.
  destruct rt; facing_shape Hk;
    cbn [facings distribute_leftover get set String.eqb Ascii.eqb Bool.eqb bind];
    repeat match goal with
           | |- context [if ?x =? 0 then _ else _] => destruct (Z.eqb_spec x 0)
           end;
    try lia;
    (eexists; split; [reflexivity|]; split; [reflexivity|]; split;
     [ intros i k v Hi;
       do 6 (try destruct i as [|i]); simpl in Hi; try discriminate;
       injection Hi as <- <-; simpl nth_error;
       match goal with
       | |- context [if ?x <? ?y then _ else _] => destruct (Z.ltb_spec x y)
       end; try reflexivity; lia
     | cbn [values map snd List.length facings] in *;
       repeat rewrite sum_cons in *; rewrite sum_nil in *;
       split; [lia | intros HT; specialize (Hsmall HT); lia] ]).
Qed.

Lemma default_shortfall_distribution_witness :
  exists d,
    calculate_armour_distribution 55 false false = Some d /\
    keys d = facings false /\
    sum (values d) = 55.
Proof.
  destruct (default_shortfall_distribution 55 false
              [("Front", 16); ("Left Side", 11); ("Right Side", 11);
               ("Rear", 6); ("Turret", 9)])
    as (d & Hd & Hk & _ & Hs & _).
  - vm_compute. reflexivity.
  - reflexivity.
  - exists d. split; [exact Hd|]. split; [exact Hk|]. rewrite Hs. reflexivity.
Defined.

(** ** The two rounding helpers on their own *)

Lemma rounding_helpers_value (m : positive) (e : Z) :
  2 ^ 52 <= Z.pos m < 2 ^ 53 -> -1071 <= e <= -1 ->
  round_up_to_5 (S754_finite false m e)
    = Some (5 * ceil_div (Z.pos m) (5 * 2 ^ (- e))) /\
  round_to_nearest_5 (S754_finite false m e)
    = Some (5 * round_half_even_div (Z.pos m) (5 * 2 ^ (- e))).
Proof.
  intros Hm He. destruct (quotient_5_rounding m e Hm He) as (q & Hq & Hc & Hr).
  unfold round_up_to_5, round_to_nearest_5. rewrite Hq. cbn [bind].
  rewrite Hc, Hr. split; reflexivity.
Qed.

Lemma Qceiling_ceil_div (n : Z) (d : positive) :
  Qceiling (n # d) = ceil_div n (Z.pos d).
Proof. reflexivity. Qed.

(** X1. On every double [x] with [2^-1019 <= x < 2^52], [round_up_to_5]
    returns 5 times the ceiling of the exact quotient [x / 5]: the float
    division by 5 that comes before [math.ceil] loses nothing. *)
Theorem round_up_to_5_is_exact_ceiling (x : float) :
  normal false (-1071) (-1) x ->
  round_up_to_5 x = Some (5 * Qceiling (F2Q x / 5)).
Proof.
  intros (m & e & -> & Hm & He).
  destruct (rounding_helpers_value m e Hm He) as [-> _].
  rewrite F2Q_normal by lia. do 2 f_equal.
  assert (HP : 0 < 2 ^ (- e)) by (apply Z.pow_pos_nonneg; lia).
  unfold Qdiv, Qinv, Qmult. cbn [Qnum Qden].
  rewrite Qceiling_ceil_div, Pos2Z.inj_mul, Z2Pos.id by exact HP.
  f_equal; lia.
Qed.

Lemma round_up_to_5_is_exact_ceiling_witness :
  round_up_to_5 (S754_finite false 8528691794332877 (-48))
    = Some (5 * Qceiling (F2Q (S754_finite false 8528691794332877 (-48)) / 5)).
Proof.
  apply round_up_to_5_is_exact_ceiling.
  exists 8528691794332877%positive, (-48). split; [reflexivity|]. lia.
Defined.

(** X2. On every double [x] with [2^-1019 <= x < 2^52],
    [round_to_nearest_5] returns a multiple [5 * k] of 5 at distance at
    most 2.5 from [x], and when [x] is exactly half way between two
    multiples of 5 the one with even [k] is taken (12.5 goes to 10, not
    15). *)
Theorem round_to_nearest_5_ties_to_even (x : float) :
  normal false (-1071) (-1) x ->
  exists k,
    round_to_nearest_5 x = Some (5 * k) /\
    (Qabs (F2Q x - inject_Z (5 * k)) <= 5 # 2)%Q /\
    ((Qabs (F2Q x - inject_Z (5 * k)) == 5 # 2)%Q -> Z.even k = true).
Proof.
  intros (m & e & -> & Hm & He).
  destruct (rounding_helpers_value m e Hm He) as [_ ->].
  assert (HP : 0 < 2 ^ (- e)) by (apply Z.pow_pos_nonneg; lia).
  assert (HD : 0 < 5 * 2 ^ (- e)) by lia.
  destruct (round_half_even_div_spec (Z.pos m) (5 * 2 ^ (- e)) HD)
    as (Hs & Hu & Hl).
  set (k := round_half_even_div (Z.pos m) (5 * 2 ^ (- e))) in *. clearbody k.
  exists k. split; [reflexivity|].
  rewrite F2Q_normal by lia.
  unfold Qminus, Qplus, Qopp, inject_Z, Qabs, Qle, Qeq. cbn [Qnum Qden].
  rewrite Pos.mul_1_r, Z2Pos.id by exact HP.
  split; [lia|]. intros Heq.
  destruct (Z.abs_spec (Z.pos m * 1 + - (5 * k) * 2 ^ (- e))) as [[_ E]|[_ E]];
    rewrite E in Heq; [apply Hu | apply Hl]; lia.
Qed.

Lemma round_to_nearest_5_ties_to_even_witness :
  exists k,
    round_to_nearest_5 (S754_finite false 7036874417766400 (-49)) = Some (5 * k) /\
    (Qabs (F2Q (S754_finite false 7036874417766400 (-49)) - inject_Z (5 * k))
       <= 5 # 2)%Q /\
    ((Qabs (F2Q (S754_finite false 7036874417766400 (-49)) - inject_Z (5 * k))
        == 5 # 2)%Q -> Z.even k = true).
Proof.
  apply round_to_nearest_5_ties_to_even.
  exists 7036874417766400%positive, (-49). split; [reflexivity|]. lia.
Defined.

(** ** Monotonicity of the roundings *)

Lemma F2Q_le_normal (mx my : positive) (ex ey : Z) :
  ex < 0 -> ey < 0 ->
  (F2Q (S754_finite false mx ex) <= F2Q (S754_finite false my ey))%Q ->
  Z.pos mx * 2 ^ (- ey) <= Z.pos my * 2 ^ (- ex).
Proof.
  intros Hx Hy. rewrite !F2Q_normal by assumption.
  unfold Qle. cbn [Qnum Qden].
  rewrite !Z2Pos.id by (apply Z.pow_pos_nonneg; lia). trivial.
Qed.

Lemma ceil_div_monotone (n1 n2 D1 D2 : Z) :
  0 < D1 -> 0 < D2 -> n1 * D2 <= n2 * D1 ->
  ceil_div n1 D1 <= ceil_div n2 D2.
Proof.
  intros H1 H2 Hle.
  pose proof (ceil_div_spec n1 D1 H1) as Hx.
  pose proof (ceil_div_spec n2 D2 H2) as Hy.
  set (cx := ceil_div n1 D1) in *. set (cy := ceil_div n2 D2) in *.
  clearbody cx cy.
  destruct (Z_le_gt_dec cx cy) as [|Hgt]; [assumption|exfalso].
  assert (H0 : cy * D2 <= (cx - 1) * D2)
    by (apply Z.mul_le_mono_nonneg_r; lia).
  assert (H3 : n2 * D1 <= (cx - 1) * D2 * D1)
    by (apply Z.mul_le_mono_nonneg_r; lia).
  assert (H4 : (cx - 1) * D1 * D2 < n1 * D2)
    by (apply Z.mul_lt_mono_pos_r; lia).
  lia.
Qed.

Lemma round_half_even_div_monotone (n1 n2 D1 D2 : Z) :
  0 < D1 -> 0 < D2 -> n1 * D2 <= n2 * D1 ->
  round_half_even_div n1 D1 <= round_half_even_div n2 D2.
Proof.
  intros H1 H2 Hle.
  destruct (round_half_even_div_spec n1 D1 H1) as (Hrx & Hux & Hlx).
  destruct (round_half_even_div_spec n2 D2 H2) as (Hry & Huy & Hly).
  set (rx := round_half_even_div n1 D1) in *.
  set (ry := round_half_even_div n2 D2) in *.
  clearbody rx ry.
  destruct (Z_le_gt_dec rx ry) as [|Hgt]; [assumption|exfalso].
  assert (G1 : 2 * n2 * D1 <= (2 * ry + 1) * D2 * D1)
    by (apply Z.mul_le_mono_nonneg_r; lia).
  assert (G2 : (2 * rx - 1) * D1 * D2 <= 2 * n1 * D2)
    by (apply Z.mul_le_mono_nonneg_r; lia).
  assert (G3 : (2 * ry + 1) * (D2 * D1) <= (2 * rx - 1) * (D2 * D1))
    by (apply Z.mul_le_mono_nonneg_r; lia).
  assert (Er : ry = rx - 1).
  { assert (0 < D2 * D1) by nia.
    assert ((2 * rx - 1) * (D2 * D1) <= (2 * ry + 1) * (D2 * D1)) by lia.
    nia. }
  subst ry.
  assert (Ex : 2 * n1 = (2 * rx - 1) * D1) by nia.
  assert (Ey : 2 * n2 = (2 * (rx - 1) + 1) * D2) by nia.
  specialize (Hlx Ex). specialize (Huy Ey).
  replace rx with (rx - 1 + 1) in Hlx by lia.
  rewrite Z.even_add, Huy in Hlx. discriminate.
Qed.

Lemma round_le_ceil (n D : Z) :
  0 < D -> round_half_even_div n D <= ceil_div n D.
Proof.
  intros HD.
  destruct (round_half_even_div_spec n D HD) as (Hr & _ & _).
  pose proof (ceil_div_spec n D HD) as Hc.
  set (r := round_half_even_div n D) in *. set (c := ceil_div n D) in *.
  clearbody r c. nia.
Qed.

Lemma py_round_monotone (x y : float) (lo lo' rx ry : Z) :
  normal false lo (-1) x -> normal false lo' (-1) y ->
  (F2Q x <= F2Q y)%Q ->
  py_round x = Some rx -> py_round y = Some ry -> rx <= ry.
Proof.
  intros (mx & ex & -> & Hmx & Hex) (my & ey & -> & Hmy & Hey) Hle.
  apply F2Q_le_normal in Hle; try lia.
  unfold py_round.
  destruct (Z.leb_spec 0 ex); [lia|]. destruct (Z.leb_spec 0 ey); [lia|].
  intros Ex Ey.
  assert (rx = round_half_even_div (Z.pos mx) (2 ^ (- ex))) by congruence.
  assert (ry = round_half_even_div (Z.pos my) (2 ^ (- ey))) by congruence.
  subst rx ry.
  apply round_half_even_div_monotone; try (apply Z.pow_pos_nonneg; lia).
  exact Hle.
Qed.

Lemma rounding_helpers_order (x y : float) (lo lo' ux uy nx ny : Z) :
  -1071 <= lo -> -1071 <= lo' ->
  normal false lo (-1) x -> normal false lo' (-1) y ->
  (F2Q x <= F2Q y)%Q ->
  round_up_to_5 x = Some ux -> round_up_to_5 y = Some uy ->
  round_to_nearest_5 x = Some nx -> round_to_nearest_5 y = Some ny ->
  ux <= uy /\ nx <= ny /\ nx <= uy.
Proof.
  intros Hlo Hlo' (mx & ex & -> & Hmx & Hex) (my & ey & -> & Hmy & Hey) Hle.
  apply F2Q_le_normal in Hle; try lia.
  destruct (rounding_helpers_value mx ex Hmx) as [Vux Vnx]; [lia|].
  destruct (rounding_helpers_value my ey Hmy) as [Vuy Vny]; [lia|].
  intros E1 E2 E3 E4.
  assert (ux = 5 * ceil_div (Z.pos mx) (5 * 2 ^ (- ex))) by congruence.
  assert (uy = 5 * ceil_div (Z.pos my) (5 * 2 ^ (- ey))) by congruence.
  assert (nx = 5 * round_half_even_div (Z.pos mx) (5 * 2 ^ (- ex)))
    by congruence.
  assert (ny = 5 * round_half_even_div (Z.pos my) (5 * 2 ^ (- ey)))
    by congruence.
  subst ux uy nx ny. clear Vux Vnx Vuy Vny E1 E2 E3 E4.
  assert (HA : 0 < 5 * 2 ^ (- ex))
    by (apply Z.mul_pos_pos; [lia | apply Z.pow_pos_nonneg; lia]).
  assert (HB : 0 < 5 * 2 ^ (- ey))
    by (apply Z.mul_pos_pos; [lia | apply Z.pow_pos_nonneg; lia]).
  assert (Hc : Z.pos mx * (5 * 2 ^ (- ey)) <= Z.pos my * (5 * 2 ^ (- ex)))
    by lia.
  pose proof (ceil_div_monotone _ _ _ _ HA HB Hc).
  pose proof (round_half_even_div_monotone _ _ _ _ HA HB Hc).
  pose proof (round_le_ceil (Z.pos mx) _ HA).
  lia.
Qed.

Lemma rounding_helpers_defined (x : float) (lo : Z) :
  -1071 <= lo -> normal false lo (-1) x ->
  exists u n,
    round_up_to_5 x = Some u /\ round_to_nearest_5 x = Some n /\
    0 <= u /\ 0 <= n.
Proof.
  intros Hlo (m & e & -> & Hm & He).
  destruct (rounding_helpers_value m e Hm) as [-> ->]; [lia|].
  assert (HD : 0 < 5 * 2 ^ (- e))
    by (apply Z.mul_pos_pos; [lia | apply Z.pow_pos_nonneg; lia]).
  pose proof (ceil_div_nonneg (Z.pos m) _ HD ltac:(lia)).
  pose proof (round_half_even_div_nonneg (Z.pos m) _ HD ltac:(lia)).
  do 2 eexists. split; [reflexivity|]. split; [reflexivity|]. lia.
Qed.

(** X3. Both rounding helpers are monotone on the doubles from [2^-1019]
    to below [2^52]: a larger argument never gets a smaller result. *)
Theorem rounding_helpers_monotone (x y : float) (ux uy nx ny : Z) :
  normal false (-1071) (-1) x -> normal false (-1071) (-1) y ->
  (F2Q x <= F2Q y)%Q ->
  round_up_to_5 x = Some ux -> round_up_to_5 y = Some uy ->
  round_to_nearest_5 x = Some nx -> round_to_nearest_5 y = Some ny ->
  ux <= uy /\ nx <= ny.
Proof.
  intros Hx Hy Hle E1 E2 E3 E4.
  destruct (rounding_helpers_order x y (-1071) (-1071) ux uy nx ny)
    as (H1 & H2 & _); first [assumption | lia].
Qed.

Lemma rounding_helpers_monotone_witness :
  15 <= 35 /\ 10 <= 30.
Proof.
  apply (rounding_helpers_monotone
           (S754_finite false 7036874417766400 (-49))
           (S754_finite false 8528691794332877 (-48)) 15 35 10 30).
  - exists 7036874417766400%positive, (-49). split; [reflexivity|]. lia.
  - exists 8528691794332877%positive, (-48). split; [reflexivity|]. lia.
  - vm_compute. discriminate.
  - vm_compute. reflexivity.
  - vm_compute. reflexivity.
  - vm_compute. reflexivity.
  - vm_compute. reflexivity.
Defined.

(** X4. On every double [x] with [2^-1019 <= x < 2^52] both helpers
    return, the result of [round_up_to_5] is the result of
    [round_to_nearest_5] or 5 more, and an argument that is itself a
    multiple of 5 is returned unchanged by both. *)
Theorem rounding_helpers_agree (x : float) :
  normal false (-1071) (-1) x ->
  exists u n,
    round_up_to_5 x = Some u /\ round_to_nearest_5 x = Some n /\
    n <= u <= n + 5 /\
    (forall j, (F2Q x == inject_Z (5 * j))%Q -> u = 5 * j /\ n = 5 * j).
Proof.
  intros (m & e & -> & Hm & He).
  destruct (rounding_helpers_value m e Hm He) as [-> ->].
  do 2 eexists. split; [reflexivity|]. split; [reflexivity|].
  assert (HP : 0 < 2 ^ (- e)) by (apply Z.pow_pos_nonneg; lia).
  assert (HD : 0 < 5 * 2 ^ (- e)) by lia.
  pose proof (ceil_div_spec (Z.pos m) (5 * 2 ^ (- e)) HD) as Hc.
  destruct (round_half_even_div_spec (Z.pos m) (5 * 2 ^ (- e)) HD)
    as (Hr & _ & _).
  set (c := ceil_div (Z.pos m) (5 * 2 ^ (- e))) in *.
  set (r := round_half_even_div (Z.pos m) (5 * 2 ^ (- e))) in *.
  set (A := 2 ^ (- e)) in *.
  assert (HF : forall j, (F2Q (S754_finite false m e) == inject_Z (5 * j))%Q ->
                         Z.pos m = 5 * j * A).
  { intros j. rewrite F2Q_normal by lia. unfold Qeq, inject_Z. cbn [Qnum Qden].
    fold A. rewrite Z2Pos.id by exact HP. lia. }
  clearbody c r A. split; [nia|].
  intros j Hj. apply HF in Hj. nia.
Qed.

Lemma rounding_helpers_agree_witness :
  exists u n,
    round_up_to_5 (S754_finite false 7036874417766400 (-49)) = Some u /\
    round_to_nearest_5 (S754_finite false 7036874417766400 (-49)) = Some n /\
    n <= u <= n + 5.
Proof.
  destruct (rounding_helpers_agree (S754_finite false 7036874417766400 (-49)))
    as (u & n & Hu & Hn & Hb & _).
  - exists 7036874417766400%positive, (-49). split; [reflexivity|]. lia.
  - exists u, n. auto.
Defined.

(** X5. Both rounding helpers raise on a NaN and on an infinity of either
    sign ([round] and [math.ceil] refuse them), and return 0 on a zero of
    either sign. *)
Theorem rounding_helpers_edge_inputs :
  round_up_to_5 S754_nan = None /\ round_to_nearest_5 S754_nan = None /\
  (forall s, round_up_to_5 (S754_infinity s) = None /\
             round_to_nearest_5 (S754_infinity s) = None) /\
  (forall s, round_up_to_5 (S754_zero s) = Some 0 /\
             round_to_nearest_5 (S754_zero s) = Some 0).
Proof.
  split; [reflexivity|]. split; [reflexivity|].
  split; intros []; split; vm_compute; reflexivity.
Qed.

(** ** The sums of the layout, zero totals, the two sides *)

Lemma py_round_upper (lo : Z) (x : float) :
  normal false lo (-1) x ->
  exists r, py_round x = Some r /\ (inject_Z r <= F2Q x + (1 # 2))%Q.
Proof.
  intros (m & e & -> & Hm & He). unfold py_round.
  destruct (Z.leb_spec 0 e); [lia|]. eexists. split; [reflexivity|].
  assert (HP : 0 < 2 ^ (- e)) by (apply Z.pow_pos_nonneg; lia).
  destruct (round_half_even_div_spec (Z.pos m) (2 ^ (- e)) HP) as (Hs & _ & _).
  set (r := round_half_even_div (Z.pos m) (2 ^ (- e))) in *. clearbody r.
  rewrite F2Q_normal by lia.
  unfold Qle, Qplus, inject_Z. cbn [Qnum Qden].
  rewrite Pos2Z.inj_mul, Z2Pos.id by exact HP. lia.
Qed.

Lemma int_mul_float_upper (T : Z) (share : float) :
  0 < T < 2 ^ 52 -> normal false (-56) (-54) share ->
  exists x,
    int_mul_float T share = Some x /\ normal false (-56) (-1) x /\
    (F2Q x <= inject_Z T * F2Q share * (9007199254740993 # 9007199254740992))%Q.
Proof.
  intros HT (my & ey & -> & Hmy & Hey).
  destruct (of_int_normal T) as (m & e & HTf & Hm & He & Hneg & Hex); try lia.
  replace (T <? 0) with false in HTf by (symmetry; apply Z.ltb_ge; lia).
  rewrite Z.abs_eq in Hneg, Hex by lia.
  specialize (Hneg ltac:(lia)). specialize (Hex ltac:(lia)).
  unfold int_mul_float. rewrite HTf. cbn [bind].
  destruct (fmul_normal false m my e ey Hm Hmy)
    as (m' & e' & -> & Hm' & He' & _ & Hv); try lia.
  eexists. split; [reflexivity|]. split.
  { exists m', e'. repeat split; lia. }
  rewrite !F2Q_normal by lia.
  assert (HA : 0 < 2 ^ (- e)) by (apply Z.pow_pos_nonneg; lia).
  assert (HB : 0 < 2 ^ (- ey)) by (apply Z.pow_pos_nonneg; lia).
  assert (HC : 0 < 2 ^ (- e')) by (apply Z.pow_pos_nonneg; lia).
  assert (HEC : 2 ^ (e' - (e + ey)) * 2 ^ (- e') = 2 ^ (- e) * 2 ^ (- ey)).
  { rewrite <- !Z.pow_add_r by lia. f_equal. lia. }
  unfold Qle, Qmult, inject_Z. cbn [Qnum Qden].
  rewrite !Pos2Z.inj_mul, !Z2Pos.id by assumption.
  set (A := 2 ^ (- e)) in *. set (B := 2 ^ (- ey)) in *.
  set (C := 2 ^ (- e')) in *. set (E := 2 ^ (e' - (e + ey))) in *.
  change (2 ^ 53) with 9007199254740992 in Hv.
  change (2 ^ 53 + 1) with 9007199254740993 in Hv.
  clearbody A B C E.
  apply (Z.mul_le_mono_pos_l _ _ A HA).
  replace (A * (T * Z.pos my * 9007199254740993 * C))
    with (9007199254740993 * (T * A * Z.pos my) * C) by ring.
  replace (A * (Z.pos m' * (Z.pos 1 * B * 9007199254740992)))
    with (9007199254740992 * (Z.pos m' * (A * B))) by ring.
  rewrite <- HEC, <- Hex.
  replace (9007199254740992 * (Z.pos m' * (E * C)))
    with (9007199254740992 * (Z.pos m' * E) * C) by ring.
  apply Z.mul_le_mono_nonneg_r; lia.
Qed.

Lemma default_overshoot_small (T : Z) (rt : bool) (ad : dict Z) :
  0 <= T < 2 ^ 52 ->
  default_rounding T rt = Some ad ->
  sum (values ad) - T <= 2.
Proof.
  intros HT Had.
  destruct (Z.eq_dec T 0) as [->|H0].
  - destruct rt; vm_compute in Had; injection Had as <-; vm_compute;
      discriminate.
  - assert (HT' : 0 < T < 2 ^ 52) by lia.
    assert (HTq : (inject_Z T < 4503599627370496 # 1)%Q).
    { change (4503599627370496 # 1)%Q with (inject_Z (2 ^ 52)).
      rewrite <- Zlt_Qlt. lia. }
    assert (HTp : (0 < inject_Z T)%Q).
    { change 0%Q with (inject_Z 0). rewrite <- Zlt_Qlt. lia. }
    unfold default_rounding, raw_allocations, basic_rounding, map_values in Had.
    destruct rt;
      [rewrite distribution_percent_true in Had
      |rewrite distribution_percent_false in Had];
      cbn [bind mapM fst snd] in Had;
      repeat match type of Had with
             | context [int_mul_float T ?s] =>
                 let x := fresh "x" in
                 let E := fresh "E" in
                 let Hn := fresh "Hn" in
                 let Hv := fresh "Hv" in
                 destruct (int_mul_float_upper T s HT' ltac:(share_is_normal))
                   as (x & E & Hn & Hv);
                 rewrite E in Had; cbn [bind mapM fst snd] in Had
             end;
      repeat match type of Had with
             | context [py_round ?x] =>
                 match goal with
                 | Hn : normal false _ (-1) x |- _ =>
                     let r := fresh "r" in
                     let E := fresh "E" in
                     let Hr := fresh "Hr" in
                     destruct (py_round_upper _ x Hn) as (r & E & Hr);
                     rewrite E in Had; cbn [bind mapM fst snd] in Had
                 end
             end;
      injection Had as <-; cbn [values map snd]; repeat rewrite sum_cons;
      rewrite sum_nil; eval_shares;
      apply Z.lt_succ_r; rewrite Zlt_Qlt;
      unfold Z.sub; repeat (rewrite inject_Z_plus || rewrite inject_Z_opp);
      change (inject_Z 0) with 0%Q; change (inject_Z (Z.succ 2)) with 3%Q;
      lra.
Qed.

Lemma distribute_leftover_sum (rt : bool) (ad d : dict Z) (L : Z) :
  keys ad = facings rt -> 0 < L ->
  distribute_leftover (facings rt) ad L = Some d ->
  sum (values d) =
    sum (values ad) + Z.min L (Z.of_nat (List.length (facings rt))).
Proof.
  intros Hk HL H. destruct rt; facing_shape Hk;
    cbn [facings distribute_leftover get set String.eqb Ascii.eqb Bool.eqb bind]
      in H;
    repeat match type of H with
           | context [if ?x =? 0 then _ else _] => destruct (Z.eqb_spec x 0)
           end;
    try lia; injection H as <-;
    cbn [values map snd List.length facings]; repeat rewrite sum_cons;
    rewrite sum_nil; lia.
Qed.

Lemma reconcile_sum (T : Z) (rt : bool) (ra d : dict Z) :
  keys ra = facings rt -> reconcile T ra = Some d ->
  T <= sum (values d) /\
  (T < sum (values d) ->
   sum (values ra) > T /\ get "Rear" d = Some 0 /\
   (rt = false -> get "Turret" d = Some 0)) /\
  (sum (values ra) <= T -> sum (values d) = T).
Proof.
  intros Hk H. destruct rt; facing_shape Hk; unfold_reconcile_in H;
    repeat match type of H with
           | context [if ?x >? ?y then _ else _] => destruct (Z.gtb_spec x y)
           | context [if ?x >=? ?y then _ else _] => destruct (Z.geb_spec x y)
           | context [if ?x <? ?y then _ else _] => destruct (Z.ltb_spec x y)
           end;
    injection H as <-;
    cbn [values map snd get String.eqb Ascii.eqb Bool.eqb];
    repeat rewrite sum_cons; rewrite sum_nil;
    (split; [lia|]); (split; [|lia]); intros Hgt;
    (split; [lia|]); (split; [reflexivity || (f_equal; lia)|]);
    intros E; try discriminate E; f_equal; lia.
Qed.

(** X6. Coarse policy, every total for which the allocator returns: the
    returned values add up to at least the total, and when they add up to
    more, Rear has been emptied, and so has Turret if it is kept. *)
Theorem coarse_never_under_allocates (T : Z) (rt : bool) (d : dict Z) :
  calculate_armour_distribution T true rt = Some d ->
  T <= sum (values d) /\
  (T < sum (values d) ->
   get "Rear" d = Some 0 /\ (rt = false -> get "Turret" d = Some 0)).
Proof.
  rewrite coarse_run. intros H. apply bind_Some in H as (ra & Hra & H).
  apply coarse_rounding_keys in Hra.
  destruct (reconcile_sum T rt ra d Hra H) as (Hle & Hgt & _).
  split; [exact Hle|]. intros Hlt. destruct (Hgt Hlt) as (_ & Hr & Ht).
  split; assumption.
Qed.

Lemma coarse_never_under_allocates_witness :
  3 <= sum (values [("Front", 5); ("Left Side", 0); ("Right Side", 0);
                    ("Rear", 0)]).
Proof.
  apply (coarse_never_under_allocates 3 true
           [("Front", 5); ("Left Side", 0); ("Right Side", 0); ("Rear", 0)]).
  vm_compute. reflexivity.
Defined.

Lemma default_rounding_exists (T : Z) (rt : bool) :
  Z.abs T < int_float_bound ->
  exists ad, default_rounding T rt = Some ad /\ keys ad = facings rt.
Proof.
  intros Hb. destruct (Z.eq_dec T 0) as [->|H0].
  - destruct rt; eexists; split; vm_compute; reflexivity.
  - destruct (rounding_total T rt H0 Hb) as (ad & _ & Had & Hk & _).
    now exists ad.
Qed.

Lemma default_result_sum (T : Z) (rt : bool) (ad : dict Z) :
  0 <= T < 2 ^ 52 ->
  default_rounding T rt = Some ad ->
  exists d,
    calculate_armour_distribution T false rt = Some d /\
    sum (values d) = Z.max T (sum (values ad)) /\
    T <= sum (values d) <= T + 2.
Proof.
  intros HT Had.
  pose proof (default_rounding_keys T rt ad Had) as Hk.
  pose proof (default_shortfall_small T rt ad HT Had) as Hlo.
  pose proof (default_overshoot_small T rt ad HT Had) as Hhi.
  rewrite default_run, Had. cbn [bind].
  destruct (Z.gtb_spec (T - sum (values ad)) 0) as [Hgt|Hle].
  - destruct (distribute_leftover_total rt ad (T - sum (values ad)) Hk)
      as (d & Hd & _).
    exists d. split; [exact Hd|].
    pose proof (distribute_leftover_sum rt ad d _ Hk Hgt Hd) as Hs.
    assert (Hn : 4 <= Z.of_nat (List.length (facings rt)))
      by (destruct rt; simpl; lia).
    lia.
  - exists ad. split; [reflexivity|]. lia.
Qed.

(** X7. Default policy, every total [0 <= T < 2^52]: the allocator
    returns, the returned values add up to the larger of [T] and the sum of
    the per-facing roundings (a shortfall is always made up, an overshoot
    is never taken back), and that is at most [T + 2]. *)
Theorem default_policy_sum (T : Z) (rt : bool) :
  0 <= T < 2 ^ 52 ->
  exists ad d,
    default_rounding T rt = Some ad /\
    calculate_armour_distribution T false rt = Some d /\
    sum (values d) = Z.max T (sum (values ad)) /\
    T <= sum (values d) <= T + 2.
Proof.
  intros HT.
  destruct (default_rounding_exists T rt) as (ad & Had & _).
  { unfold int_float_bound. lia. }
  destruct (default_result_sum T rt ad HT Had) as (d & Hd & Hs).
  exists ad, d. split; [exact Had|]. split; [exact Hd | exact Hs].
Qed.

Lemma default_policy_sum_witness :
  exists ad d,
    default_rounding 22 false = Some ad /\
    calculate_armour_distribution 22 false false = Some d /\
    sum (values d) = Z.max 22 (sum (values ad)) /\
    22 <= sum (values d) <= 22 + 2.
Proof.
  apply (default_policy_sum 22 false). split; [discriminate | reflexivity].
Defined.

Lemma sum_all_zero (l : list Z) : Forall (fun v => v = 0) l -> sum l = 0.
Proof.
  induction 1 as [|v l Hv _ IH]; [reflexivity|]. rewrite sum_cons. lia.
Qed.

(** X8. For every total [0 <= T < 2^52] and both flags the allocator
    returns, and every facing gets 0 points exactly when the total is
    0. *)
Theorem all_zero_iff_no_points (T : Z) (re rt : bool) :
  0 <= T < 2 ^ 52 ->
  exists d,
    calculate_armour_distribution T re rt = Some d /\
    (Forall (fun v => v = 0) (values d) <-> T = 0).
Proof.
  intros HT. destruct (Z.eq_dec T 0) as [->|H0].
  - destruct re, rt; eexists; (split; [vm_compute; reflexivity|]);
      (split; [reflexivity|]); intros _; cbn [values map snd];
      repeat constructor.
  - assert (Hd : exists d, calculate_armour_distribution T re rt = Some d /\
                           T <= sum (values d)).
    { destruct re.
      - destruct (calculate_total T true rt) as (d & Hd & Hk & _).
        { unfold int_float_bound. lia. }
        exists d. split; [exact Hd|]. revert Hd. rewrite coarse_run.
        intros H. apply bind_Some in H as (ra & Hra & H).
        apply coarse_rounding_keys in Hra.
        apply (reconcile_sum T rt ra d Hra H).
      - destruct (default_rounding_exists T rt) as (ad & Had & _).
        { unfold int_float_bound. lia. }
        destruct (default_result_sum T rt ad HT Had) as (d & Hd & _ & Hs).
        exists d. split; [exact Hd | lia]. }
    destruct Hd as (d & Hd & Hs). exists d. split; [exact Hd|].
    split; [|contradiction]. intros Hz. apply sum_all_zero in Hz. lia.
Qed.

Lemma all_zero_iff_no_points_witness :
  exists d,
    calculate_armour_distribution 1 false false = Some d /\
    (Forall (fun v => v = 0) (values d) <-> 1 = 0).
Proof.
  apply (all_zero_iff_no_points 1 false false). split; [discriminate | reflexivity].
Defined.

Lemma roundings_sides_equal (T : Z) (rt : bool) :
  (forall ad, default_rounding T rt = Some ad ->
              get "Left Side" ad = get "Right Side" ad) /\
  (forall ra, coarse_rounding T rt = Some ra ->
              get "Left Side" ra = get "Right Side" ra).
Proof.
  unfold default_rounding, coarse_rounding, raw_allocations, basic_rounding,
    rounded_allocations, map_values, map_items.
  destruct rt;
    [rewrite distribution_percent_true | rewrite distribution_percent_false];
    cbn [bind mapM fst snd String.eqb Ascii.eqb Bool.eqb];
    repeat match goal with
           | |- context [int_mul_float T ?s] =>
               destruct (int_mul_float T s);
               cbn [bind mapM fst snd String.eqb Ascii.eqb Bool.eqb]
           end;
    (split; intros d;
     repeat match goal with
            | |- context [py_round ?x] =>
                destruct (py_round x); cbn [bind mapM fst snd]
            | |- context [round_up_to_5 ?x] =>
                destruct (round_up_to_5 x); cbn [bind mapM fst snd]
            | |- context [round_to_nearest_5 ?x] =>
                destruct (round_to_nearest_5 x); cbn [bind mapM fst snd]
            end;
     intros H; try discriminate H; injection H as <-; reflexivity).
Qed.

(** X9. Whenever the allocator returns, Left Side gets as much as Right
    Side or one point more; under the coarse policy the two sides get the
    same. *)
Theorem side_facings_balance (T : Z) (re rt : bool) (d : dict Z) :
  calculate_armour_distribution T re rt = Some d ->
  exists l r,
    get "Left Side" d = Some l /\ get "Right Side" d = Some r /\
    r <= l <= r + 1 /\ (re = true -> l = r).
Proof.
  destruct (roundings_sides_equal T rt) as [Hdef Hco].
  destruct re.
  - rewrite coarse_run. intros H. apply bind_Some in H as (ra & Hra & H).
    specialize (Hco ra Hra). apply coarse_rounding_keys in Hra.
    destruct rt; facing_shape Hra;
      cbn [get String.eqb Ascii.eqb Bool.eqb] in Hco; injection Hco as ->;
      unfold_reconcile_in H;
      repeat match type of H with
             | context [if ?c then _ else _] => destruct c
             end;
      injection H as <-; do 2 eexists;
      (split; [reflexivity|]); (split; [reflexivity|]);
      (split; [lia | reflexivity]).
  - rewrite default_run. intros H. apply bind_Some in H as (ad & Had & H).
    specialize (Hdef ad Had). apply default_rounding_keys in Had.
    destruct rt; facing_shape Had;
      cbn [get String.eqb Ascii.eqb Bool.eqb] in Hdef; injection Hdef as ->;
      cbn [facings distribute_leftover get set String.eqb Ascii.eqb Bool.eqb
             bind] in H;
      repeat match type of H with
             | context [if ?c then _ else _] => destruct c
             end;
      injection H as <-; do 2 eexists;
      (split; [reflexivity|]); (split; [reflexivity|]);
      (split; [lia | discriminate]).
Qed.

Lemma side_facings_balance_witness :
  exists l r,
    get "Left Side" [("Front", 17); ("Left Side", 12); ("Right Side", 11);
                     ("Rear", 6); ("Turret", 9)] = Some l /\
    get "Right Side" [("Front", 17); ("Left Side", 12); ("Right Side", 11);
                      ("Rear", 6); ("Turret", 9)] = Some r /\
    r <= l <= r + 1 /\ (false = true -> l = r).
Proof.
  apply (side_facings_balance 55 false false). vm_compute. reflexivity.
Defined.

(** ** Coarse policy: the sum of the layout *)

Lemma reconcile_exact (T : Z) (rt : bool) (ra d : dict Z) (r : Z) :
  keys ra = facings rt -> get "Rear" ra = Some r ->
  sum (values ra) - T <= r ->
  reconcile T ra = Some d -> sum (values d) = T.
Proof.
  intros Hk Hr Hle H. destruct rt; facing_shape Hk;
    cbn [get String.eqb Ascii.eqb Bool.eqb] in Hr; injection Hr as <-;
    cbn [values map snd] in Hle; repeat rewrite sum_cons in Hle;
    rewrite sum_nil in Hle;
    unfold_reconcile_in H;
    repeat match type of H with
           | context [if ?x >? ?y then _ else _] => destruct (Z.gtb_spec x y)
           | context [if ?x >=? ?y then _ else _] => destruct (Z.geb_spec x y)
           | context [if ?x <? ?y then _ else _] => destruct (Z.ltb_spec x y)
           end;
    try lia; injection H as <-; cbn [values map snd];
    repeat rewrite sum_cons; rewrite sum_nil; lia.
Qed.

Lemma int_mul_float_bounds (T : Z) (share : float) :
  0 < T < 2 ^ 52 -> normal false (-56) (-54) share ->
  exists x,
    int_mul_float T share = Some x /\ normal false (-56) (-1) x /\
    (inject_Z T * F2Q share * (9007199254740991 # 9007199254740992)
       <= F2Q x)%Q /\
    (F2Q x <= inject_Z T * F2Q share * (9007199254740993 # 9007199254740992))%Q.
Proof.
  intros HT Hs.
  destruct (int_mul_float_lower T share HT Hs) as (x & E & Hn & Hlo).
  destruct (int_mul_float_upper T share HT Hs) as (x' & E' & _ & Hhi).
  assert (x' = x) by congruence. subst x'. exists x. auto.
Qed.

Lemma coarse_rear_covers_overage (T : Z) (rt : bool) (ra : dict Z) :
  150 <= T < 2 ^ 52 ->
  coarse_rounding T rt = Some ra ->
  exists r, get "Rear" ra = Some r /\ sum (values ra) - T <= r.
Proof.
  intros HT Hra.
  assert (HT' : 0 < T < 2 ^ 52) by lia.
  assert (HTq : (inject_Z T < 4503599627370496 # 1)%Q).
  { change (4503599627370496 # 1)%Q with (inject_Z (2 ^ 52)).
    rewrite <- Zlt_Qlt. lia. }
  assert (HTp : (150 # 1 <= inject_Z T)%Q).
  { change (150 # 1)%Q with (inject_Z 150). rewrite <- Zle_Qle. lia. }
  unfold coarse_rounding, raw_allocations, rounded_allocations, map_values,
    map_items in Hra.
  destruct rt;
    [rewrite distribution_percent_true in Hra
    |rewrite distribution_percent_false in Hra];
    cbn [bind mapM fst snd String.eqb Ascii.eqb Bool.eqb] in Hra;
    repeat match type of Hra with
           | context [int_mul_float T ?s] =>
               let x := fresh "x" in
               let E := fresh "E" in
               let Hn := fresh "Hn" in
               let Hlo := fresh "Hlo" in
               let Hhi := fresh "Hhi" in
               destruct (int_mul_float_bounds T s HT' ltac:(share_is_normal))
                 as (x & E & Hn & Hlo & Hhi);
               rewrite E in Hra;
               cbn [bind mapM fst snd String.eqb Ascii.eqb Bool.eqb] in Hra
           end;
    repeat match type of Hra with
           | context [round_up_to_5 ?x] =>
               match goal with
               | Hn : normal false _ (-1) x |- _ =>
                   let v := fresh "v" in
                   let E := fresh "E" in
                   destruct (round_up_to_5_exact x Hn) as (v & E & _ & ? & ?);
                   rewrite E in Hra; cbn [bind mapM fst snd] in Hra
               end
           | context [round_to_nearest_5 ?x] =>
               match goal with
               | Hn : normal false _ (-1) x |- _ =>
                   let v := fresh "v" in
                   let E := fresh "E" in
                   let Ha := fresh "Ha" in
                   destruct (round_to_nearest_5_exact x Hn) as (v & E & _ & Ha);
                   apply Qabs_Qle_condition in Ha; destruct Ha as [? ?];
                   rewrite E in Hra; cbn [bind mapM fst snd] in Hra
               end
           end;
    injection Hra as <-; eexists; (split; [reflexivity|]);
    cbn [values map snd]; repeat rewrite sum_cons; rewrite sum_nil;
    eval_shares;
    rewrite Zle_Qle;
    unfold Z.sub; repeat (rewrite inject_Z_plus || rewrite inject_Z_opp);
    change (inject_Z 0) with 0%Q; lra.
Qed.

Lemma coarse_sum_below_150 (T : Z) (rt : bool) :
  0 <= T < 150 ->
  exists d,
    calculate_armour_distribution T true rt = Some d /\
    T <= sum (values d) <= T + (if rt then 5 else 4) /\
    ((if rt then 35 else 20) <= T -> sum (values d) = T).
Proof.
  intros HT.
  assert (A : forallb
                (fun n =>
                   match calculate_armour_distribution (Z.of_nat n) true rt with
                   | Some d =>
                       (Z.of_nat n <=? sum (values d)) &&
                       (sum (values d) <=? Z.of_nat n + (if rt then 5 else 4)) &&
                       (((if rt then 35 else 20) >? Z.of_nat n) ||
                        (sum (values d) =? Z.of_nat n))
                   | None => false
                   end)
                (seq 0 150) = true)
    by (destruct rt; vm_compute; reflexivity).
  rewrite forallb_forall in A. specialize (A (Z.to_nat T)).
  rewrite Z2Nat.id in A by lia.
  assert (Hin : In (Z.to_nat T) (seq 0 150)) by (apply in_seq; lia).
  specialize (A Hin).
  destruct (calculate_armour_distribution T true rt) as [d|];
    [|discriminate A].
  exists d. split; [reflexivity|].
  apply andb_prop in A as [A A3]. apply andb_prop in A as [A1 A2].
  apply Z.leb_le in A1. apply Z.leb_le in A2.
  split; [lia|]. intros Hb. apply orb_prop in A3 as [A3|A3].
  - apply Z.gtb_lt in A3. lia.
  - apply Z.eqb_eq in A3. exact A3.
Qed.

Lemma coarse_result_sum (T : Z) (rt : bool) (d : dict Z) :
  0 <= T < 2 ^ 52 ->
  calculate_armour_distribution T true rt = Some d ->
  T <= sum (values d) <= T + (if rt then 5 else 4) /\
  ((if rt then 35 else 20) <= T -> sum (values d) = T).
Proof.
  intros HT Hd. destruct (Z_lt_le_dec T 150) as [Hs|Hl].
  - destruct (coarse_sum_below_150 T rt) as (d' & Hd' & Hb); [lia|].
    assert (d' = d) by congruence. subst d'. exact Hb.
  - revert Hd. rewrite coarse_run. intros H.
    apply bind_Some in H as (ra & Hra & H).
    destruct (coarse_rear_covers_overage T rt ra) as (r & Hr & Hle);
      [lia | exact Hra |].
    apply coarse_rounding_keys in Hra.
    rewrite (reconcile_exact T rt ra d r Hra Hr Hle H).
    split; [destruct rt; lia | reflexivity].
Qed.

(** X10. Coarse policy, every total [0 <= T < 2^52]: the allocator
    returns, the returned values add up to at least [T] and at most
    [T + 4] ([T + 5] when the Turret is removed), and from 20 points on (35
    when the Turret is removed) they add up to exactly [T]. *)
Theorem coarse_policy_sum (T : Z) (rt : bool) :
  0 <= T < 2 ^ 52 ->
  exists d,
    calculate_armour_distribution T true rt = Some d /\
    T <= sum (values d) <= T + (if rt then 5 else 4) /\
    ((if rt then 35 else 20) <= T -> sum (values d) = T).
Proof.
  intros HT.
  destruct (calculate_total T true rt) as (d & Hd & _).
  { unfold int_float_bound. lia. }
  exists d. split; [exact Hd|]. exact (coarse_result_sum T rt d HT Hd).
Qed.

Lemma coarse_policy_sum_witness :
  exists d,
    calculate_armour_distribution 20 true false = Some d /\
    20 <= sum (values d) <= 20 + (if false then 5 else 4) /\
    ((if false then 35 else 20) <= 20 -> sum (values d) = 20).
Proof.
  apply (coarse_policy_sum 20 false). split; [discriminate | reflexivity].
Defined.

Lemma coarse_overage_last_totals :
  (exists d, calculate_armour_distribution 19 true false = Some d /\
             sum (values d) = 20) /\
  (exists d, calculate_armour_distribution 34 true true = Some d /\
             sum (values d) = 35) /\
  (exists d, calculate_armour_distribution 1 true false = Some d /\
             sum (values d) = 5) /\
  (exists d, calculate_armour_distribution 15 true true = Some d /\
             sum (values d) = 20).
Proof.
  repeat split; eexists; (split; [vm_compute; reflexivity|]); reflexivity.
Qed.

(** ** The layout keeps the rank of the shares *)

Ltac raw_bounds H T HT :=
  repeat match type of H with
         | context [int_mul_float T ?s] =>
             let x := fresh "x" in
             let E := fresh "E" in
             let Hn := fresh "Hn" in
             let Hlo := fresh "Hlo" in
             let Hhi := fresh "Hhi" in
             destruct (int_mul_float_bounds T s HT ltac:(share_is_normal))
               as (x & E & Hn & Hlo & Hhi);
             rewrite E in H;
             cbn [bind mapM fst snd String.eqb Ascii.eqb Bool.eqb] in H
         end.

Ltac ranked_goal :=
  unfold ranked; do 4 eexists;
  cbn [get String.eqb Ascii.eqb Bool.eqb];
  (split; [reflexivity|]); (split; [reflexivity|]);
  (split; [reflexivity|]); (split; [reflexivity|]);
  (split; [lia|]); (split; [lia|]);
  let t := fresh "t" in let Ht := fresh "Ht" in
  intros t Ht; try discriminate Ht; injection Ht as <-; lia.

Lemma default_rounding_ranked (T : Z) (rt : bool) (ad : dict Z) :
  0 <= T < 2 ^ 52 -> default_rounding T rt = Some ad -> ranked ad.
Proof.
  intros HT Had.
  destruct (Z.eq_dec T 0) as [->|H0].
  - destruct rt; vm_compute in Had; injection Had as <-; ranked_goal.
  - assert (HT' : 0 < T < 2 ^ 52) by lia.
    assert (HTp : (0 < inject_Z T)%Q).
    { change 0%Q with (inject_Z 0). rewrite <- Zlt_Qlt. lia. }
    unfold default_rounding, raw_allocations, basic_rounding, map_values in Had.
    destruct rt;
      [rewrite distribution_percent_true in Had
      |rewrite distribution_percent_false in Had];
      cbn [bind mapM fst snd] in Had;
      raw_bounds Had T HT';
      repeat match type of Had with
             | context [py_round ?x] =>
                 match goal with
                 | Hn : normal false _ (-1) x |- _ =>
                     let r := fresh "r" in
                     let E := fresh "E" in
                     let P := fresh "P" in
                     destruct (py_round_normal _ _ _ x Hn) as (r & E & P);
                     specialize (P eq_refl);
                     rewrite E in Had; cbn [bind mapM fst snd] in Had
                 end
             end;
      eval_shares;
      repeat match goal with
             | Ea : py_round ?xa = Some ?ra, Eb : py_round ?xb = Some ?rb |- _ =>
                 lazymatch goal with
                 | _ : ra <= rb |- _ => fail
                 | _ => idtac
                 end;
                 assert (ra <= rb)
                   by (eapply (py_round_monotone xa xb);
                       [eassumption | eassumption | lra | exact Ea | exact Eb])
             end;
      injection Had as <-; ranked_goal.
Qed.

Lemma coarse_rounding_ranked (T : Z) (rt : bool) (ra : dict Z) :
  0 <= T < 2 ^ 52 -> coarse_rounding T rt = Some ra -> ranked ra.
Proof.
  intros HT Hra.
  destruct (Z.eq_dec T 0) as [->|H0].
  - destruct rt; vm_compute in Hra; injection Hra as <-; ranked_goal.
  - assert (HT' : 0 < T < 2 ^ 52) by lia.
    assert (HTp : (0 < inject_Z T)%Q).
    { change 0%Q with (inject_Z 0). rewrite <- Zlt_Qlt. lia. }
    assert (Hlo56 : -1071 <= -56) by lia.
    unfold coarse_rounding, raw_allocations, rounded_allocations, map_values,
      map_items in Hra.
    destruct rt;
      [rewrite distribution_percent_true in Hra
      |rewrite distribution_percent_false in Hra];
      cbn [bind mapM fst snd String.eqb Ascii.eqb Bool.eqb] in Hra;
      raw_bounds Hra T HT';
      repeat match goal with
             | Hn : normal false _ (-1) ?x |- _ =>
                 lazymatch goal with
                 | _ : round_up_to_5 x = Some _ |- _ => fail
                 | _ => idtac
                 end;
                 let u := fresh "u" in
                 let n := fresh "n" in
                 let Eu := fresh "Eu" in
                 let En := fresh "En" in
                 destruct (rounding_helpers_defined x (-56) Hlo56 Hn)
                   as (u & n & Eu & En & ? & ?);
                 rewrite ?Eu, ?En in Hra
             end;
      cbn [bind mapM fst snd] in Hra;
      eval_shares;
      repeat match goal with
             | Ea : round_up_to_5 ?xa = Some ?ua,
               Na : round_to_nearest_5 ?xa = Some ?na,
               Eb : round_up_to_5 ?xb = Some ?ub,
               Nb : round_to_nearest_5 ?xb = Some ?nb |- _ =>
                 lazymatch goal with
                 | _ : ua <= ub /\ na <= nb /\ na <= ub |- _ => fail
                 | _ => idtac
                 end;
                 assert (ua <= ub /\ na <= nb /\ na <= ub)
                   by (apply (rounding_helpers_order xa xb (-56) (-56)
                                ua ub na nb Hlo56 Hlo56);
                       [assumption | assumption | lra
                       | exact Ea | exact Eb | exact Na | exact Nb])
             end;
      injection Hra as <-; ranked_goal.
Qed.

Lemma distribute_leftover_ranked (rt : bool) (ad d : dict Z) (L : Z) :
  keys ad = facings rt -> 0 < L <= 3 -> ranked ad ->
  distribute_leftover (facings rt) ad L = Some d -> ranked d.
Proof.
  intros Hk HL (f & l & r & b & Hf & Hl & Hr & Hb & O1 & O2 & Ot) H.
  destruct rt; facing_shape Hk;
    cbn [get String.eqb Ascii.eqb Bool.eqb] in Hf, Hl, Hr, Hb, Ot;
    injection Hf as <-; injection Hl as <-; injection Hr as <-;
    injection Hb as <-;
    try (match type of Ot with
         | forall t, Some ?v = Some t -> _ =>
             specialize (Ot v eq_refl)
         end);
    cbn [facings distribute_leftover get set String.eqb Ascii.eqb Bool.eqb bind]
      in H;
    repeat match type of H with
           | context [if ?x =? 0 then _ else _] => destruct (Z.eqb_spec x 0)
           end;
    try lia; injection H as <-; ranked_goal.
Qed.

Lemma reconcile_ranked (T : Z) (rt : bool) (ra d : dict Z) :
  keys ra = facings rt -> ranked ra ->
  reconcile T ra = Some d -> ranked d.
Proof.
  intros Hk (f & l & r & b & Hf & Hl & Hr & Hb & O1 & O2 & Ot) H.
  destruct rt; facing_shape Hk;
    cbn [get String.eqb Ascii.eqb Bool.eqb] in Hf, Hl, Hr, Hb, Ot;
    injection Hf as <-; injection Hl as <-; injection Hr as <-;
    injection Hb as <-;
    try (match type of Ot with
         | forall t, Some ?v = Some t -> _ =>
             specialize (Ot v eq_refl)
         end);
    unfold_reconcile_in H;
    repeat match type of H with
           | context [if ?x >? ?y then _ else _] => destruct (Z.gtb_spec x y)
           | context [if ?x >=? ?y then _ else _] => destruct (Z.geb_spec x y)
           | context [if ?x <? ?y then _ else _] => destruct (Z.ltb_spec x y)
           end;
    injection H as <-; ranked_goal.
Qed.

(** X11. For every total [0 <= T < 2^52] and both flags the layout keeps
    the rank of the shares: Front gets at least as much as Left Side, Left
    Side as Right Side, Right Side as Turret (when kept) and as Rear,
    Turret as Rear, and Rear is not negative. *)
Theorem layout_keeps_share_rank (T : Z) (re rt : bool) (d : dict Z) :
  0 <= T < 2 ^ 52 ->
  calculate_armour_distribution T re rt = Some d -> ranked d.
Proof.
  intros HT. destruct re.
  - rewrite coarse_run. intros H. apply bind_Some in H as (ra & Hra & H).
    pose proof (coarse_rounding_ranked T rt ra HT Hra) as Hrk.
    apply coarse_rounding_keys in Hra.
    exact (reconcile_ranked T rt ra d Hra Hrk H).
  - rewrite default_run. intros H. apply bind_Some in H as (ad & Had & H).
    pose proof (default_rounding_ranked T rt ad HT Had) as Hrk.
    pose proof (default_shortfall_small T rt ad HT Had) as Hs.
    apply default_rounding_keys in Had.
    destruct (Z.gtb_spec (T - sum (values ad)) 0) as [Hgt|Hle].
    + apply (distribute_leftover_ranked rt ad d (T - sum (values ad)) Had);
        [lia | exact Hrk | exact H].
    + injection H as <-. exact Hrk.
Qed.

Lemma layout_keeps_share_rank_witness :
  ranked [("Front", 17); ("Left Side", 12); ("Right Side", 11);
          ("Rear", 6); ("Turret", 9)].
Proof.
  apply (layout_keeps_share_rank 55 false false).
  - split; [discriminate | reflexivity].
  - vm_compute. reflexivity.
Defined.

(** ** [run_calculation]: from the tonnage to the total *)

Lemma armour_types_normal (ppt : float) :
  In ppt (values RAW_ARMOUR_TYPES) -> normal false (-49) (-48) ppt.
Proof.
  intros H. vm_compute in H.
  repeat (destruct H as [<- | H];
          [do 2 eexists; (split; [reflexivity|]); lia|]).
  contradiction.
Qed.

Lemma py_int_finite_bound (s : bool) (m : positive) (e : Z) :
  Z.pos m < 2 ^ 53 -> e <= 971 ->
  exists T, py_int (S754_finite s m e) = inr T /\
            Z.abs T < int_float_bound /\
            (s = false -> 0 <= T) /\ (s = true -> T <= 0).
Proof.
  intros Hm He. unfold py_int. eexists. split; [reflexivity|].
  destruct (Z.leb_spec 0 e) as [H0|H0].
  - assert (Hp : 0 < 2 ^ e <= 2 ^ 971).
    { split; [apply Z.pow_pos_nonneg; lia | apply Z.pow_le_mono_r; lia]. }
    assert (Hb : Z.pos m * 2 ^ e <= (2 ^ 53 - 1) * 2 ^ 971) by nia.
    unfold int_float_bound.
    change ((2 ^ 53 - 1) * 2 ^ 971) with (2 ^ 1024 - 2 ^ 971) in Hb.
    destruct s; repeat split; try discriminate; nia.
  - assert (Hp : 0 < 2 ^ (- e)) by (apply Z.pow_pos_nonneg; lia).
    assert (Hq : 0 <= Z.pos m / 2 ^ (- e) <= Z.pos m).
    { split; [apply Z.div_pos; lia|]. apply Z.div_le_upper_bound; nia. }
    unfold int_float_bound.
    destruct s.
    + change (Z.neg m) with (- Z.pos m).
      rewrite Z.quot_opp_l, Z.quot_div_nonneg by lia.
      repeat split; try discriminate; try lia.
    + rewrite Z.quot_div_nonneg by lia.
      repeat split; try discriminate; try lia.
Qed.

Lemma fmul_overflow (s : bool) (mx my : positive) (ex ey : Z) :
  2 ^ 52 <= Z.pos mx < 2 ^ 53 -> 2 ^ 52 <= Z.pos my < 2 ^ 53 ->
  920 <= ex + ey ->
  fmul (S754_finite s mx ex) (S754_finite false my ey) = S754_infinity s.
Proof.
  intros Hx Hy Hlo. unfold fmul, SFmul.
  replace (xorb s false) with s by (now destruct s).
  rewrite Pos2Z.inj_mul.
  assert (Hprod : 2 ^ 104 <= Z.pos mx * Z.pos my < 2 ^ 106) by nia.
  set (N := Z.pos mx * Z.pos my) in *.
  assert (I : inbetween N 1 N loc_Exact) by (simpl; lia).
  assert (Hpos : 0 < N) by lia.
  assert (Hinf : forall p, 52 <= p <= 53 -> 2 ^ (52 + p) <= N < 2 ^ (53 + p) ->
            binary_round_aux prec emax s N (ex + ey) loc_Exact
              = S754_infinity s).
  { intros p Hp HN.
    assert (Hd : Zdigits2 N = 53 + p).
    { apply Zdigits2_unique; [lia|].
      replace (53 + p - 1) with (52 + p) by lia. exact HN. }
    destruct (binary_round_aux_normal s N (ex + ey) p N 1 loc_Exact
                Z.lt_0_1 Hpos I Hd) as [_ B2]; [lia | lia |].
    rewrite B2.
    destruct (Z.leb_spec (ex + ey + p) 971); [lia|].
    destruct (Z.leb_spec (ex + ey + p + 1) 971); [lia|].
    now destruct (_ <? _). }
  destruct (Z_lt_le_dec N (2 ^ 105)).
  - apply (Hinf 52); [lia|]. simpl. lia.
  - apply (Hinf 53); [lia|]. simpl. lia.
Qed.

(** X12. [run_calculation], for every armour type of the table and every
    tonnage that is zero or a normal double of magnitude below [2^1018]:
    [int(tons * points_per_ton)] raises nothing and the allocator returns a
    layout over the surviving facings for that total; when the tonnage is
    not negative, neither are the total and the values. *)
Theorem tonnage_always_allocates (tons ppt : float) (s re rt : bool) :
  In ppt (values RAW_ARMOUR_TYPES) ->
  tons = S754_zero s \/ normal s (-1074) 965 tons ->
  exists T d,
    total_armour_points tons ppt = inr T /\
    calculate_armour_distribution T re rt = Some d /\
    keys d = facings rt /\
    (s = false -> 0 <= T /\ Forall (fun v => 0 <= v) (values d)).
Proof.
  intros Hin Htons. apply armour_types_normal in Hin.
  destruct Hin as (my & ey & -> & Hmy & Hey).
  assert (HT : exists T, total_armour_points tons (S754_finite false my ey)
                           = inr T /\
                         Z.abs T < int_float_bound /\ (s = false -> 0 <= T)).
  { unfold total_armour_points. destruct Htons as [-> | (m & e & -> & Hm & He)].
    - exists 0. split; [now destruct s|]. split; [reflexivity | lia].
    - destruct (fmul_normal s m my e ey Hm Hmy)
        as (m' & e' & -> & Hm' & He' & _); try lia.
      destruct (py_int_finite_bound s m' e') as (T & -> & Hb & Hs & _);
        try lia.
      exists T. auto. }
  destruct HT as (T & HT & Hb & Hs).
  destruct (calculate_total T re rt Hb) as (d & Hd & Hk & Hnn).
  exists T, d. split; [exact HT|]. split; [exact Hd|]. split; [exact Hk|].
  intros E. specialize (Hs E). split; [exact Hs | exact (Hnn Hs)].
Qed.

Lemma tonnage_always_allocates_witness :
  exists T d,
    total_armour_points (S754_finite false (2 ^ 52) (-48))
                        (S754_finite false (2 ^ 52) (-48)) = inr T /\
    calculate_armour_distribution T true false = Some d /\
    keys d = facings false.
Proof.
  destruct (tonnage_always_allocates
              (S754_finite false (2 ^ 52) (-48))
              (S754_finite false (2 ^ 52) (-48)) false true false)
    as (T & d & HT & Hd & Hk & _).
  - vm_compute. left. reflexivity.
  - right. exists (2 ^ 52)%positive, (-48). split; [reflexivity|]. lia.
  - exists T, d. auto.
Defined.

(** X13. [run_calculation]: whenever the product [tons * points_per_ton]
    is a finite nonzero double, the total is that product truncated toward
    zero: its magnitude is at most the product's and less than 1 below it,
    and it has the product's sign. *)
Theorem total_armour_points_truncates (tons ppt : float)
    (s : bool) (m : positive) (e : Z) :
  fmul tons ppt = S754_finite s m e ->
  exists T,
    total_armour_points tons ppt = inr T /\
    (Qabs (inject_Z T) <= Qabs (F2Q (fmul tons ppt)))%Q /\
    (Qabs (F2Q (fmul tons ppt)) < Qabs (inject_Z T) + 1)%Q /\
    (if s then T <= 0 else 0 <= T).
Proof.
  intros Hx. unfold total_armour_points. rewrite Hx. unfold py_int, F2Q.
  eexists. split; [reflexivity|].
  destruct (Z.leb_spec 0 e) as [H0|H0].
  - assert (Hp : 0 < 2 ^ e) by (apply Z.pow_pos_nonneg; lia).
    split; [apply Qle_refl|]. split.
    + rewrite <- (Qplus_0_r (Qabs _)) at 1. apply Qplus_lt_r. reflexivity.
    + destruct s; nia.
  - assert (Hp : 0 < 2 ^ (- e)) by (apply Z.pow_pos_nonneg; lia).
    assert (Hdm := Z.div_mod (Z.pos m) (2 ^ (- e)) ltac:(lia)).
    assert (Hmod := Z.mod_pos_bound (Z.pos m) (2 ^ (- e)) Hp).
    assert (Hq : 0 <= Z.pos m / 2 ^ (- e)) by (apply Z.div_pos; lia).
    unfold Qabs, Qle, Qlt, Qplus, inject_Z. cbn [Qnum Qden].
    rewrite Z2Pos.id by exact Hp.
    destruct s.
    + change (Z.neg m) with (- Z.pos m).
      rewrite Z.quot_opp_l, Z.quot_div_nonneg by lia.
      rewrite !Z.abs_opp, (Z.abs_eq (Z.pos m)), (Z.abs_eq (_ / _)) by lia.
      repeat split; nia.
    + rewrite Z.quot_div_nonneg by lia.
      rewrite (Z.abs_eq (Z.pos m)), (Z.abs_eq (_ / _)) by lia.
      repeat split; nia.
Qed.

Lemma total_armour_points_truncates_witness :
  exists T,
    total_armour_points (S754_finite false 7205759403792794 (-55))
                        (S754_finite false (2 ^ 52) (-48)) = inr T /\
    (if false then T <= 0 else 0 <= T).
Proof.
  destruct (total_armour_points_truncates
              (S754_finite false 7205759403792794 (-55))
              (S754_finite false (2 ^ 52) (-48))
              false 7205759403792794 (-51))
    as (T & HT & _ & _ & Hs).
  - vm_compute. reflexivity.
  - exists T. auto.
Defined.

(** X14. [run_calculation], for every armour type of the table: a NaN
    tonnage raises [ValueError], which the handler catches; an infinite
    tonnage, or one of at least [2^1021] in magnitude, raises
    [OverflowError], which the handler does not catch. *)
Theorem tonnage_errors (ppt : float) :
  In ppt (values RAW_ARMOUR_TYPES) ->
  total_armour_points S754_nan ppt = inl ValueError /\
  handled ValueError = true /\
  (forall s, total_armour_points (S754_infinity s) ppt = inl OverflowError) /\
  (forall s tons, normal s 969 971 tons ->
                  total_armour_points tons ppt = inl OverflowError) /\
  handled OverflowError = false.
Proof.
  intros Hin. apply armour_types_normal in Hin.
  destruct Hin as (my & ey & -> & Hmy & Hey).
  split; [reflexivity|]. split; [reflexivity|].
  split; [intros []; reflexivity|]. split; [|reflexivity].
  intros s tons (m & e & -> & Hm & He). unfold total_armour_points.
  rewrite fmul_overflow by lia. reflexivity.
Qed.

Lemma tonnage_errors_witness :
  total_armour_points S754_nan (S754_finite false (2 ^ 52) (-48))
    = inl ValueError.
Proof.
  apply (tonnage_errors (S754_finite false (2 ^ 52) (-48))).
  vm_compute. left. reflexivity.
Defined.

(** ** Division of a normal double by a normal double *)

Lemma SFdiv_core_binary_normal (mx my : positive) (ex ey : Z) :
  2 ^ 52 <= Z.pos mx < 2 ^ 53 -> 2 ^ 52 <= Z.pos my < 2 ^ 53 ->
  -1021 <= ex - ey ->
  SFdiv_core_binary prec emax (Z.pos mx) ex (Z.pos my) ey =
    ((Z.pos mx * 2 ^ 53) / Z.pos my, ex - ey - 53,
     new_location (Z.pos my) ((Z.pos mx * 2 ^ 53) mod Z.pos my)).
Proof.
  intros Hx Hy He. unfold SFdiv_core_binary.
  rewrite (Zdigits2_unique (Z.pos mx) 53) by (simpl; lia).
  rewrite (Zdigits2_unique (Z.pos my) 53) by (simpl; lia).
  rewrite fexp_normal by lia.
  rewrite Z.min_l by lia.
  replace (ex - ey - (53 + ex - (53 + ey) - 53)) with 53 by lia.
  cbv iota. rewrite Z.shiftl_mul_pow2 by lia.
  unfold Z.div, Z.modulo.
  destruct (Z.div_eucl (Z.pos mx * 2 ^ 53) (Z.pos my)) as [q r].
  cbn [fst snd]. f_equal. f_equal. lia.
Qed.

Lemma fdiv_normal (s : bool) (mx my : positive) (ex ey : Z) :
  2 ^ 52 <= Z.pos mx < 2 ^ 53 -> 2 ^ 52 <= Z.pos my < 2 ^ 53 ->
  -1021 <= ex - ey <= 1022 ->
  exists a m e,
    (a = 0 \/ a = 1) /\
    fdiv (S754_finite s mx ex) (S754_finite false my ey) = S754_finite s m e /\
    2 ^ 52 <= Z.pos m < 2 ^ 53 /\
    ex - ey - 53 + a <= e <= ex - ey - 53 + a + 1 /\
    Z.pos m * 2 ^ (e - (ex - ey - 53 + a)) =
      round_half_even_div (Z.pos mx * 2 ^ 53) (Z.pos my * 2 ^ a).
Proof.
  intros Hx Hy He. unfold fdiv, SFdiv.
  rewrite SFdiv_core_binary_normal by lia.
  replace (xorb s false) with s by (now destruct s).
  set (N := Z.pos mx * 2 ^ 53). set (D := Z.pos my).
  assert (HD : 0 < D) by reflexivity.
  pose proof (Z.mod_pos_bound N D HD) as Hr.
  pose proof (new_location_inbetween D (N / D) (N mod D) HD Hr) as I.
  replace (N / D * D + N mod D) with N in I
    by (rewrite (Z.div_mod N D) at 1; lia).
  assert (Hq : 2 ^ 52 <= N / D < 2 ^ 54).
  { split.
    - apply Z.div_le_lower_bound; [lia|]. unfold N, D. nia.
    - apply Z.div_lt_upper_bound; [lia|]. unfold N, D. nia. }
  assert (Hq0 : 0 < N / D) by lia.
  assert (Hfin : forall a, (a = 0 \/ a = 1) -> Zdigits2 (N / D) = 53 + a ->
            exists m e,
              binary_round_aux prec emax s (N / D) (ex - ey - 53)
                (new_location D (N mod D)) = S754_finite s m e /\
              2 ^ 52 <= Z.pos m < 2 ^ 53 /\
              ex - ey - 53 + a <= e <= ex - ey - 53 + a + 1 /\
              Z.pos m * 2 ^ (e - (ex - ey - 53 + a)) =
                round_half_even_div N (D * 2 ^ a)).
  { intros a Ha Hd.
    destruct (binary_round_aux_normal s (N / D) (ex - ey - 53) a N D _
                HD Hq0 I Hd) as [B1 B2]; [lia | lia |].
    rewrite B2. set (m1 := round_half_even_div N (D * 2 ^ a)) in *.
    destruct (Z.ltb_spec m1 (2 ^ 53)).
    - destruct (Z.leb_spec (ex - ey - 53 + a) 971); [|lia].
      exists (Z.to_pos m1), (ex - ey - 53 + a). rewrite Z2Pos.id by lia.
      rewrite Z.sub_diag. repeat split; lia.
    - destruct (Z.leb_spec (ex - ey - 53 + a + 1) 971); [|lia].
      exists (Z.to_pos (2 ^ 52)), (ex - ey - 53 + a + 1).
      replace (ex - ey - 53 + a + 1 - (ex - ey - 53 + a)) with 1 by lia.
      repeat split; try lia; try reflexivity. }
  destruct (Z_lt_le_dec (N / D) (2 ^ 53)) as [Hlt|Hge].
  - destruct (Hfin 0) as (m & e & H1 & H2 & H3 & H4);
      [now left | apply Zdigits2_unique; simpl; lia |].
    exists 0, m, e. auto.
  - destruct (Hfin 1) as (m & e & H1 & H2 & H3 & H4);
      [now right | apply Zdigits2_unique; simpl; lia |].
    exists 1, m, e. auto.
Qed.

(** ** The weights that [run_calculation] displays *)

Lemma int_div_float_rounds (n : Z) (ppt : float) :
  0 <= n < 2 ^ 53 -> normal false (-49) (-48) ppt ->
  exists w,
    int_div_float n ppt = inr w /\
    (Qabs (F2Q w * F2Q ppt - inject_Z n)
       <= F2Q w * F2Q ppt * (1 # 9007199254740992))%Q.
Proof.
  intros Hn (my & ey & -> & Hmy & Hey). unfold int_div_float.
  destruct (Z.eq_dec n 0) as [->|H0].
  - exists (S754_zero false). split; [reflexivity|]. vm_compute. discriminate.
  - destruct (of_int_normal n H0) as (m & e & -> & Hm & He & _ & Hex).
    { rewrite Z.abs_eq by lia. lia. }
    replace (n <? 0) with false by (symmetry; apply Z.ltb_ge; lia).
    rewrite Z.abs_eq in Hex by lia. specialize (Hex ltac:(lia)).
    assert (He0 : e <= 0).
    { destruct (Z_le_gt_dec e 0) as [|Hgt]; [assumption|exfalso].
      rewrite Z.pow_neg_r in Hex by lia. lia. }
    destruct (fdiv_normal false m my e ey Hm Hmy)
      as (a & mw & ew & Ha & -> & Hmw & Hew & Hv); [lia|].
    eexists. split; [reflexivity|].
    rewrite !F2Q_normal by lia.
    assert (HD : 0 < Z.pos my * 2 ^ a) by (destruct Ha; subst a; lia).
    destruct (round_half_even_div_spec (Z.pos m * 2 ^ 53) (Z.pos my * 2 ^ a) HD)
      as (Hr & _ & _).
    rewrite <- Hv in Hr.
    assert (HPw : 0 < 2 ^ (- ew)) by (apply Z.pow_pos_nonneg; lia).
    assert (HPy : 0 < 2 ^ (- ey)) by (apply Z.pow_pos_nonneg; lia).
    assert (HPe : 0 < 2 ^ (- e)) by (apply Z.pow_pos_nonneg; lia).
    set (k := ew - (e - ey - 53 + a)) in *.
    assert (Hk : k = 0 \/ k = 1) by lia.
    assert (HP : 2 ^ (- ew) * 2 ^ (- ey) * 2 ^ (a + k) = 2 ^ (- e) * 2 ^ 53).
    { rewrite <- !Z.pow_add_r by lia. f_equal. lia. }
    unfold Qabs, Qle, Qminus, Qplus, Qopp, Qmult, inject_Z. cbn [Qnum Qden].
    rewrite !Pos2Z.inj_mul, !Z2Pos.id by assumption.
    set (Pw := 2 ^ (- ew)) in *. set (Py := 2 ^ (- ey)) in *.
    set (Pe := 2 ^ (- e)) in *.
    clearbody Pw Py Pe.
    change (2 ^ 53) with 9007199254740992 in *.
    change (2 ^ 52) with 4503599627370496 in *.
    set (X := n * (Pw * Py)).
    set (W := Z.pos mw * Z.pos my).
    assert (HW : 4503599627370496 * Z.pos my <= W)
      by (apply Z.mul_le_mono_nonneg_r; lia).
    assert (Hnm : X * 2 ^ (a + k) = Z.pos m * 9007199254740992).
    { unfold X.
      replace (n * (Pw * Py) * 2 ^ (a + k)) with (n * (Pw * Py * 2 ^ (a + k)))
        by ring.
      rewrite HP, Hex. ring. }
    assert (Hmain : 9007199254740992 * Z.abs (W - X) <= W).
    { rewrite <- Hnm in Hr. fold W in Hr.
      destruct Ha as [-> | ->]; destruct Hk as [Ek | Ek]; rewrite Ek in Hr;
        rewrite ?Z.add_0_l, ?Z.add_0_r in Hr;
        change (2 ^ 0) with 1 in Hr; change (2 ^ 1) with 2 in Hr;
        change (2 ^ (1 + 1)) with 4 in Hr;
        unfold W, X in *; lia. }
    replace (W * 1 + - n * (Pw * Py)) with (W - X) by (unfold X; ring).
    assert (0 < Pw * Py) by (apply Z.mul_pos_pos; assumption).
    replace (W * 1 * (Pw * Py * 1)) with (W * (Pw * Py)) by ring.
    replace (Z.abs (W - X) * (Pw * Py * 9007199254740992))
      with (9007199254740992 * Z.abs (W - X) * (Pw * Py)) by ring.
    apply Z.mul_le_mono_nonneg_r; [lia | exact Hmain].
Qed.

Lemma le_sum_of_nonneg (l : list Z) (v : Z) :
  Forall (fun v => 0 <= v) l -> In v l -> 0 <= v <= sum l.
Proof.
  induction 1 as [|x l Hx Hl IH]; intros Hin; [contradiction|].
  rewrite sum_cons.
  assert (0 <= sum l).
  { clear IH Hin. induction Hl as [|y l Hy _ IH]; [reflexivity|].
    rewrite sum_cons. lia. }
  destruct Hin as [->|Hin]; [lia|]. specialize (IH Hin). lia.
Qed.

Lemma layout_values_bounded (T : Z) (re rt : bool) (d : dict Z) :
  0 <= T < 2 ^ 52 ->
  calculate_armour_distribution T re rt = Some d ->
  Forall (fun v => 0 <= v <= T + 5) (values d).
Proof.
  intros HT Hd.
  destruct (calculate_total T re rt) as (d' & Hd' & _ & Hnn).
  { unfold int_float_bound. lia. }
  assert (d' = d) by congruence. subst d'. specialize (Hnn ltac:(lia)).
  assert (Hs : sum (values d) <= T + 5).
  { destruct re.
    - destruct (coarse_result_sum T rt d HT Hd) as [Hb _].
      destruct rt; lia.
    - destruct (default_rounding_exists T rt) as (ad & Had & _).
      { unfold int_float_bound. lia. }
      destruct (default_result_sum T rt ad HT Had) as (d2 & Hd2 & _ & Hb).
      assert (d2 = d) by congruence. subst d2. lia. }
  apply Forall_forall. intros v Hv.
  pose proof (le_sum_of_nonneg (values d) v Hnn Hv). lia.
Qed.

Lemma weights_rounded (layout : dict Z) (ppt : float) :
  normal false (-49) (-48) ppt ->
  Forall (fun v => 0 <= v < 2 ^ 53) (values layout) ->
  exists ws,
    weights layout ppt = inr ws /\
    Forall2 (fun kv kw =>
               fst kw = fst kv /\
               (Qabs (F2Q (snd kw) * F2Q ppt - inject_Z (snd kv))
                  <= F2Q (snd kw) * F2Q ppt * (1 # 9007199254740992))%Q)
            layout ws.
Proof.
  intros Hp. induction layout as [|[loc pts] rest IH]; intros Hv.
  - exists []. split; [reflexivity | constructor].
  - cbn [values map snd] in Hv. inversion Hv as [|? ? Hpts Hrest]; subst.
    destruct (IH Hrest) as (ws & Ews & Hws).
    destruct (int_div_float_rounds pts ppt Hpts Hp) as (w & Ew & Hw).
    exists ((loc, w) :: ws). cbn [weights]. rewrite Ew, Ews.
    split; [reflexivity|]. constructor; [|exact Hws].
    split; [reflexivity | exact Hw].
Qed.

(** X15. [run_calculation], for every armour type of the table, every
    total [0 <= T < 2^52] and both flags: the weight [pts / points_per_ton]
    of every facing of the layout is computed without an exception, facing
    by facing in the order of the layout, and each weight times
    [points_per_ton] is within a relative [2^-53] of the facing's
    points. *)
Theorem displayed_weights_rounded (ppt : float) (T : Z) (re rt : bool)
    (d : dict Z) :
  In ppt (values RAW_ARMOUR_TYPES) -> 0 <= T < 2 ^ 52 ->
  calculate_armour_distribution T re rt = Some d ->
  exists ws,
    weights d ppt = inr ws /\
    Forall2 (fun kv kw =>
               fst kw = fst kv /\
               (Qabs (F2Q (snd kw) * F2Q ppt - inject_Z (snd kv))
                  <= F2Q (snd kw) * F2Q ppt * (1 # 9007199254740992))%Q)
            d ws.
Proof.
  intros Hin HT Hd. apply armour_types_normal in Hin.
  apply weights_rounded; [exact Hin|].
  pose proof (layout_values_bounded T re rt d HT Hd) as Hb.
  apply Forall_forall. intros v Hv.
  rewrite Forall_forall in Hb. specialize (Hb v Hv).
  change (2 ^ 53) with 9007199254740992.
  change (2 ^ 52) with 4503599627370496 in HT. lia.
Qed.

Lemma displayed_weights_rounded_witness :
  exists ws,
    weights [("Front", 144); ("Left Side", 100); ("Right Side", 100);
             ("Rear", 56); ("Turret", 80)]
            (S754_finite false (2 ^ 52) (-48)) = inr ws /\
    List.length ws = 5%nat.
Proof.
  destruct (displayed_weights_rounded (S754_finite false (2 ^ 52) (-48)) 480
              false false
              [("Front", 144); ("Left Side", 100); ("Right Side", 100);
               ("Rear", 56); ("Turret", 80)])
    as (ws & Hws & HF).
  - vm_compute. left. reflexivity.
  - split; [discriminate | reflexivity].
  - vm_compute. reflexivity.
  - exists ws. split; [exact Hws|].
    apply Forall2_length in HF. symmetry. exact HF.
Defined.

(** ** [draw_diagram] and the lookup table *)

(** X16. [draw_diagram] on a layout returned by the allocator: the first
    canvas call is [delete "all"]; after it come, for each facing in the
    order of the layout, one [create_rectangle] immediately followed by one
    [create_text], and nothing else, so the canvas receives one [delete]
    and exactly one rectangle and one text per facing; the rectangles are
    pairwise distinct; and the texts are, in the order of the layout, the
    label of the facing ([Fr], [Ls], [Rs], [Rr], and [Tu] when the Turret
    is kept), a newline and its points. *)
Theorem diagram_shows_layout (T : Z) (re rt : bool) (d : dict Z) :
  calculate_armour_distribution T re rt = Some d ->
  texts (draw_diagram d) = map diagram_label d /\
  List.length (draw_diagram d) = S (2 * List.length d) /\
  hd_error (draw_diagram d) = Some (delete "all") /\
  map method (tl (draw_diagram d))
    = flat_map (fun _ => [CreateRectangle; CreateText]) d /\
  NoDup (rectangles (draw_diagram d)).
Proof.
  intros H. apply calculate_keys in H.
  destruct rt; facing_shape H;
    (split; [reflexivity|]); (split; [reflexivity|]);
    (split; [reflexivity|]); (split; [reflexivity|]);
    cbn [draw_diagram rectangles filter app mem get String.eqb Ascii.eqb
           Bool.eqb];
    repeat (constructor; [cbn [In]; intuition discriminate|]);
    constructor.
Qed.

Lemma diagram_shows_layout_witness :
  texts (draw_diagram [("Front", 144); ("Left Side", 100); ("Right Side", 100);
                       ("Rear", 56); ("Turret", 80)])
  = map diagram_label [("Front", 144); ("Left Side", 100); ("Right Side", 100);
                       ("Rear", 56); ("Turret", 80)].
Proof.
  apply (diagram_shows_layout 480 false false). vm_compute. reflexivity.
Defined.

(** X17. [draw_diagram] reads the five facings only: setting any other
    key of the layout leaves every canvas call unchanged. *)
Theorem diagram_ignores_other_keys (d : dict Z) (k : string) (v : Z) :
  ~ In k ["Front"; "Left Side"; "Right Side"; "Rear"; "Turret"] ->
  draw_diagram (set k v d) = draw_diagram d.
Proof.
  intros Hk. unfold draw_diagram, get_or, mem.
  rewrite !get_set_other; [reflexivity |..];
    intros <-; apply Hk; simpl; tauto.
Qed.

Lemma diagram_ignores_other_keys_witness :
  draw_diagram (set "Hull" 7 []) = draw_diagram [].
Proof.
  apply diagram_ignores_other_keys. simpl. intuition discriminate.
Defined.

(** X18. Whatever text the format [.2f] produces, the labels of
    [ARMOUR_OPTIONS] are pairwise distinct: [ARMOUR_LOOKUP] has the labels
    as its keys, in the order of the table, with the table's values, and
    the label at each position looks up the points per ton of the armour
    type at that position. *)
Theorem armour_lookup_resolves (format_2f : float -> string) :
  keys (ARMOUR_LOOKUP format_2f) = ARMOUR_OPTIONS format_2f /\
  values (ARMOUR_LOOKUP format_2f) = values RAW_ARMOUR_TYPES /\
  forall i name v,
    nth_error RAW_ARMOUR_TYPES i = Some (name, v) ->
    exists label,
      nth_error (ARMOUR_OPTIONS format_2f) i = Some label /\
      get label (ARMOUR_LOOKUP format_2f) = Some v.
Proof.
  assert (E : ARMOUR_LOOKUP format_2f =
              combine (ARMOUR_OPTIONS format_2f) (values RAW_ARMOUR_TYPES)).
  { unfold ARMOUR_LOOKUP, dict_of_pairs, ARMOUR_OPTIONS, RAW_ARMOUR_TYPES.
    cbn [map fst snd combine values fold_left set String.append String.eqb
           Ascii.eqb Bool.eqb andb].
    reflexivity. }
  rewrite E. split; [reflexivity|]. split; [reflexivity|].
  intros i name v Hi.
  do 9 (try destruct i as [|i]); cbn [nth_error RAW_ARMOUR_TYPES] in Hi;
    try discriminate Hi; injection Hi as <- <-;
    (eexists; split; [reflexivity|]);
    cbn [ARMOUR_OPTIONS RAW_ARMOUR_TYPES map fst snd combine values get
           String.append String.eqb Ascii.eqb Bool.eqb andb];
    rewrite ?String.eqb_refl; reflexivity.
Qed.
